(** * format-ts-cli: the edit applier and the scan-and-apply pipeline

    A shallow embedding of the formatter module (the edit applier and
    [formatFile]; the text that [bin/format-ts.js] requires as
    [../src/formatter], found after the build script in [src/build-bun.sh])
    and of [src/bin/format-ts.js] (argument parsing, directory walk, the
    worker pool and the exit status), followed by the properties of the
    specification that were checked against it.

    Conventions of the embedding:
    - a JavaScript string holding file content is a list of code units
      ([jsstring]); paths, patterns and messages are Rocq strings;
    - offsets are [Z], and [String.prototype.slice] is written out with its
      clamping of relative and out-of-range indices;
    - the disk is a finite map from paths to files; each file carries the
      bytes stored and whether the three system calls used on it succeed;
    - what the program gets from its platform (the TypeScript language
      service, minimatch, [Number], [path.resolve], [path.extname], the UTF-8
      codec, the CPU count, the clock) is a field of [platform]. *)

From Stdlib Require Import ZArith List Ascii String Lia Bool.
From Stdlib.Strings Require Import Byte.
From stdpp Require Import base list strings gmap pretty.

Set Warnings "-register-all".

Local Open Scope Z_scope.

(** ** JavaScript values used by the program *)

Definition code_unit : Type := N.
Abbreviation jsstring := (list code_unit).

(** A string literal as a sequence of code units. *)
Definition str (s : string) : jsstring :=
  map N_of_ascii (list_ascii_of_string s).

(** A call either returns a value or throws an [Error] with a message. *)
Inductive completion (A : Type) : Type :=
| Returns (value : A)
| Throws (message : string).
Arguments Returns {A} value.
Arguments Throws {A} message.

(** [ToIntegerOrInfinity] followed by the clamping of [String.prototype.slice]:
    a negative index counts from the end, and everything is cut to [0, len]. *)
Definition clamp_index (len i : Z) : Z :=
  if i <? 0 then Z.max (len + i) 0 else Z.min i len.

(** [s.slice(from, to)]; [to = None] is the one-argument call [s.slice(from)]. *)
Definition slice (s : jsstring) (from : Z) (to : option Z) : jsstring :=
  let len := Z.of_nat (length s) in
  let first := clamp_index len from in
  let last := match to with
              | None => len
              | Some e => clamp_index len e
              end in
  take (Z.to_nat (last - first)) (drop (Z.to_nat first) s).

(** ** The formatter module: [createSingleFileFormatter] *)

Module Formatter.

(** [ts.TextSpan] and [ts.TextChange]. *)
Record TextSpan : Type := mkSpan { start : Z; length : Z }.
Record TextChange : Type := mkChange { span : TextSpan; newText : jsstring }.

(** What [languageService.getFormattingEditsForDocument] does: it throws, or
    it returns an array of changes, or a falsy value ([None]). *)
Definition oracle : Type := string -> jsstring -> completion (option (list TextChange)).

(** The body of the [for] loop of [format]: one edit spliced into [result]. *)
Definition apply_edit (e : TextChange) (result : jsstring) : jsstring :=
  let start := start (span e) in
  let end_ := start + length (span e) in
  slice result 0 (Some start) ++ newText e ++ slice result end_ None.

(** [for (let i = edits.length - 1; i >= 0; i--)]: the last edit of the array
    is applied first, the first one last. *)
Definition apply_back_to_front (edits : list TextChange) (text : jsstring) : jsstring :=
  foldr apply_edit text edits.

(** The part of [format] after the call of the language service. *)
Definition apply_edits (edits : option (list TextChange)) (text : jsstring) : jsstring :=
  match edits with
  | None => text
  | Some [] => text
  | Some edits => apply_back_to_front edits text
  end.

(** [createSingleFileFormatter(fileName, initialText).format()]. *)
Definition format (getFormattingEditsForDocument : oracle)
    (normalizedFileName : string) (text : jsstring) : completion jsstring :=
  match getFormattingEditsForDocument normalizedFileName text with
  | Throws message => Throws message
  | Returns edits => Returns (apply_edits edits text)
  end.

(** *** The reference of the specification

    Simultaneous application by direct index slicing: the edits are put in
    ascending order of start, and the result is the pieces of the original
    between them with the replacements in place of the ranges. *)

Definition stop (e : TextChange) : Z := start (span e) + length (span e).

Fixpoint insert_by_start (e : TextChange) (sorted : list TextChange) : list TextChange :=
  match sorted with
  | [] => [e]
  | x :: rest =>
      if start (span e) <=? start (span x) then e :: x :: rest
      else x :: insert_by_start e rest
  end.

Definition sort_by_start (edits : list TextChange) : list TextChange :=
  foldr insert_by_start [] edits.

Fixpoint splice_from (original : jsstring) (cursor : Z) (sorted : list TextChange) : jsstring :=
  match sorted with
  | [] => slice original cursor None
  | e :: rest =>
      slice original cursor (Some (start (span e))) ++ newText e
        ++ splice_from original (stop e) rest
  end.

Definition simultaneous (original : jsstring) (edits : list TextChange) : jsstring :=
  splice_from original 0 (sort_by_start edits).

(** The input constraints of the edit applier. *)
Definition in_bounds (original : jsstring) (e : TextChange) : Prop :=
  0 <= start (span e) /\ 0 <= length (span e)
  /\ stop e <= Z.of_nat (List.length original).

Definition separate (a b : TextChange) : Prop :=
  stop a <= start (span b) \/ stop b <= start (span a).

Definition non_overlapping (edits : list TextChange) : Prop :=
  ForallOrdPairs separate edits.

(** The edits as the language service delivers them: in ascending order,
    each one ending at or before the start of the next, from [cursor] on. *)
Fixpoint ascending_from (original : jsstring) (cursor : Z) (edits : list TextChange) : Prop :=
  match edits with
  | [] => cursor <= Z.of_nat (List.length original)
  | e :: rest =>
      cursor <= start (span e) /\ 0 <= length (span e)
      /\ ascending_from original (stop e) rest
  end.

End Formatter.

(** ** The platform and the file system *)

(** [Number(s)] as far as [parseArgs] looks at it: an integer
    ([Number.isInteger]) or anything else (a fraction, [NaN], an infinity). *)
Inductive jsnumber : Type :=
| Integer (value : Z)
| NotInteger.

(** A regular file: the bytes stored, whether the probe ([openSync] and
    [readSync]) fails, and the errors of [readFileSync] and [writeFileSync]
    when they throw. *)
Record file : Type := mkFile {
  bytes : list byte;
  probe_fails : bool;
  read_error : option string;
  write_error : option string
}.

(** A [Dirent] of [readdirSync(dir, {withFileTypes: true})]. A directory
    carries its own listing, [None] when reading it throws. *)
Inductive dirent : Type :=
| File (name : string)
| Directory (name : string) (entries : option (list dirent))
| Other (name : string).

(** What [existsSync] and [statSync] say about the target path. *)
Inductive stats : Type :=
| Missing
| Unstatable
| IsDirectory (entries : option (list dirent))
| IsFile
| IsOther.

Record filesystem : Type := mkFs {
  inspect : string -> stats;
  content : gmap string file
}.

Record platform : Type := mkPlatform {
  (** [Number(s)] *)
  Number : string -> jsnumber;
  (** [new Minimatch(pattern, {dot, matchBase: true}).match(path)] *)
  minimatch : bool -> string -> string -> bool;
  (** [new Minimatch(pattern, options)] throws: the error as
      [console.error] prints it, [None] when the constructor returns *)
  minimatch_throws : string -> option string;
  (** [path.resolve(p)] *)
  resolve : string -> string;
  (** [path.extname(p).toLowerCase()] *)
  extname_lower : string -> string;
  (** [Buffer] to string and back, in UTF-8 *)
  utf8_decode : list byte -> jsstring;
  utf8_encode : jsstring -> list byte;
  (** the TypeScript language service *)
  getFormattingEditsForDocument : Formatter.oracle;
  (** [os.cpus().length] *)
  cpus : Z;
  (** [Date.now() - startTime] at the end of the run *)
  elapsedMs : Z
}.

(** [console.log], [console.error] and [console.warn], one line each. *)
Inductive output : Type :=
| Log (line : string)
| Error (line : string)
| Warn (line : string).

(** ** The formatter module: [formatFile] *)

Definition readFileSync (P : platform) (d : gmap string file) (p : string)
    : completion jsstring :=
  match d !! p with
  | None => Throws ("ENOENT: no such file or directory, open '" +:+ p +:+ "'")
  | Some f =>
      match read_error f with
      | Some message => Throws message
      | None => Returns (utf8_decode P (bytes f))
      end
  end.

Definition writeFileSync (P : platform) (d : gmap string file) (p : string)
    (data : jsstring) : completion (gmap string file) :=
  match d !! p with
  | None => Returns (<[p := mkFile (utf8_encode P data) false None None]> d)
  | Some f =>
      match write_error f with
      | Some message => Throws message
      | None =>
          Returns (<[p := mkFile (utf8_encode P data) (probe_fails f)
                             (read_error f) (write_error f)]> d)
      end
  end.

Definition formatFile (P : platform) (d : gmap string file) (filePath : string)
    : completion (jsstring * bool) :=
  let absolutePath := resolve P filePath in
  match readFileSync P d absolutePath with
  | Throws message => Throws message
  | Returns originalText =>
      let normalizedFileName := resolve P absolutePath in
      match Formatter.format (getFormattingEditsForDocument P)
              normalizedFileName originalText with
      | Throws message => Throws message
      | Returns formattedText =>
          let changed := bool_decide (formattedText <> originalText) in
          Returns (formattedText, changed)
      end
  end.

(** ** src/bin/format-ts.js *)

Module Cli.

Record options : Type := mkOptions {
  dir : option string;
  include : string;
  exclude : list string;
  concurrency : Z;
  dry : bool;
  check : bool;
  silent : bool
}.

Definition default_options : options :=
  mkOptions None "**/*.{ts,tsx,js}"
    ["node_modules"; "dist"; "build"; "coverage"; ".git"] 8 false false false.

Definition set_dir (v : string) (o : options) : options :=
  mkOptions (Some v) (include o) (exclude o) (concurrency o) (dry o) (check o) (silent o).
Definition set_include (v : string) (o : options) : options :=
  mkOptions (dir o) v (exclude o) (concurrency o) (dry o) (check o) (silent o).
Definition set_exclude (v : list string) (o : options) : options :=
  mkOptions (dir o) (include o) v (concurrency o) (dry o) (check o) (silent o).
Definition set_concurrency (v : Z) (o : options) : options :=
  mkOptions (dir o) (include o) (exclude o) v (dry o) (check o) (silent o).
Definition set_dry (o : options) : options :=
  mkOptions (dir o) (include o) (exclude o) (concurrency o) true (check o) (silent o).
Definition set_check (o : options) : options :=
  mkOptions (dir o) (include o) (exclude o) (concurrency o) (dry o) true (silent o).
Definition set_silent (o : options) : options :=
  mkOptions (dir o) (include o) (exclude o) (concurrency o) (dry o) (check o) true.

(** *** String helpers of [parseArgs] and [collectFiles] *)

(** [s.split(sep)] for a separator of one character. *)
Fixpoint split_on (sep : ascii) (s : string) : list string :=
  match s with
  | EmptyString => [EmptyString]
  | String c rest =>
      if Ascii.eqb c sep then EmptyString :: split_on sep rest
      else match split_on sep rest with
           | piece :: pieces => String c piece :: pieces
           | [] => [String c EmptyString]
           end
  end.

(** White space of [trim], for the characters below 128. *)
Definition is_space (c : ascii) : bool :=
  let n := nat_of_ascii c in
  (Nat.eqb n 32 || (Nat.leb 9 n && Nat.leb n 13))%bool.

Fixpoint trim_start (s : string) : string :=
  match s with
  | EmptyString => EmptyString
  | String c rest => if is_space c then trim_start rest else s
  end.

Fixpoint trim_end (s : string) : string :=
  match s with
  | EmptyString => EmptyString
  | String c rest =>
      match trim_end rest with
      | EmptyString => if is_space c then EmptyString else String c EmptyString
      | kept => String c kept
      end
  end.

Definition trim (s : string) : string := trim_end (trim_start s).

(** The truth value of a string. *)
Definition truthy (s : string) : bool :=
  match s with
  | EmptyString => false
  | String _ _ => true
  end.

(** The truth value of a variable that is [undefined] or a string. *)
Definition defined_truthy (v : option string) : bool :=
  match v with
  | None => false
  | Some s => truthy s
  end.

(** [next.split(',').map((s) => s.trim()).filter(Boolean)] *)
Definition split_exclude (next : string) : list string :=
  List.filter truthy (map trim (split_on "," next)).

Definition startsWith_dash (arg : string) : bool :=
  match arg with
  | String "-" _ => true
  | _ => false
  end.

(** [pattern.replace(/\\+/g, '/')]: every run of backslashes becomes one
    slash. *)
Fixpoint replace_backslashes (pattern : string) : string :=
  match pattern with
  | EmptyString => EmptyString
  | String c rest =>
      if Ascii.eqb c "\" then
        match rest with
        | String c' _ =>
            if Ascii.eqb c' "\" then replace_backslashes rest
            else String "/" (replace_backslashes rest)
        | EmptyString => String "/" EmptyString
        end
      else String c (replace_backslashes rest)
  end.

(** *** [parseArgs] *)

Record parsed : Type := mkParsed {
  parsed_options : options;
  positionalPath : option string;
  showHelp : bool
}.

(** The [for] loop over [args]; [args[++i]] is the head of the rest, and a
    value that is missing or empty is refused by [if (!next)]. *)
Fixpoint parseArgs_loop (P : platform) (args : list string) (o : options)
    (positional : option string) : completion parsed :=
  match args with
  | [] => Returns (mkParsed o positional false)
  | arg :: rest =>
      if (String.eqb arg "-h" || String.eqb arg "--help")%bool then
        Returns (mkParsed o positional true)
      else if String.eqb arg "--dir" then
        match rest with
        | next :: rest' =>
            if truthy next then parseArgs_loop P rest' (set_dir next o) positional
            else Throws "--dir requires a value"
        | [] => Throws "--dir requires a value"
        end
      else if String.eqb arg "--include" then
        match rest with
        | next :: rest' =>
            if truthy next then parseArgs_loop P rest' (set_include next o) positional
            else Throws "--include requires a value"
        | [] => Throws "--include requires a value"
        end
      else if String.eqb arg "--exclude" then
        match rest with
        | next :: rest' =>
            if truthy next
            then parseArgs_loop P rest' (set_exclude (split_exclude next) o) positional
            else Throws "--exclude requires a value"
        | [] => Throws "--exclude requires a value"
        end
      else if String.eqb arg "--concurrency" then
        match rest with
        | next :: rest' =>
            if truthy next then
              match Number P next with
              | Integer n =>
                  if n <=? 0 then Throws "--concurrency must be a positive integer"
                  else parseArgs_loop P rest' (set_concurrency n o) positional
              | NotInteger => Throws "--concurrency must be a positive integer"
              end
            else Throws "--concurrency requires a value"
        | [] => Throws "--concurrency requires a value"
        end
      else if String.eqb arg "--dry" then parseArgs_loop P rest (set_dry o) positional
      else if String.eqb arg "--check" then parseArgs_loop P rest (set_check o) positional
      else if String.eqb arg "--silent" then parseArgs_loop P rest (set_silent o) positional
      else if startsWith_dash arg then Throws ("Unknown option: " +:+ arg)
      else if negb (defined_truthy positional) then parseArgs_loop P rest o (Some arg)
      else Throws ("Unexpected positional argument: " +:+ arg)
  end.

(** [parseArgs(argv)]: the arguments start after the interpreter and the
    script. *)
Definition parseArgs (P : platform) (argv : list string) : completion parsed :=
  parseArgs_loop P (drop 2 argv) default_options None.

(** *** [isTextFile] *)

Definition is_nul (b : byte) : bool := Byte.eqb b x00.

(** The first 1024 bytes hold no zero byte; a file that cannot be opened or
    read is answered like a binary one, by the [catch]. *)
Definition isTextFile (d : gmap string file) (filePath : string) : bool :=
  match d !! filePath with
  | None => false
  | Some f =>
      if probe_fails f then false
      else negb (existsb is_nul (take 1024 (bytes f)))
  end.

(** *** [collectFiles] *)

(** [path.join(dir, name)] for a directory path without a trailing
    separator. *)
Definition join (dir name : string) : string := dir +:+ "/" +:+ name.

(** [path.relative(rootDir, fullPath).split(path.sep).join('/')] for an
    entry [name] in the directory reached from the root by [above]. *)
Definition relative (above : list string) (name : string) : string :=
  String.concat "/" (above ++ [name]).

(** The first element for which [f] gives a value. *)
Fixpoint list_find_map_first {A B : Type} (f : A -> option B) (l : list A)
    : option B :=
  match l with
  | [] => None
  | x :: rest =>
      match f x with
      | Some y => Some y
      | None => list_find_map_first f rest
      end
  end.

Section Walk.
Variable includeMatcher : string -> bool.
Variable excludeMatchers : list (string -> bool).

(** [excludeMatchers.some((m) => m.match(relPath) || m.match(entry.name))] *)
Definition excluded (relPath name : string) : bool :=
  existsb (fun m => (m relPath || m name)%bool) excludeMatchers.

Definition entry_name (entry : dirent) : string :=
  match entry with
  | File name | Directory name _ | Other name => name
  end.

Definition isDirectory (entry : dirent) : bool :=
  match entry with
  | Directory _ _ => true
  | _ => false
  end.

(** One turn of the [for] loop of [walk], for the entry [entry] of the
    directory [dir]; [files] is the array filled so far. The test on the
    exclude patterns ends the turn for a directory only. *)
Fixpoint walk_entry (dir : string) (above : list string) (entry : dirent)
    (files : list string) : list string :=
  let fullPath := join dir (entry_name entry) in
  let relPath := relative above (entry_name entry) in
  if (excluded relPath (entry_name entry) && isDirectory entry)%bool then files
  else
    match entry with
    | Directory name listing =>
        match listing with
        | None => files
        | Some entries =>
            (fix each (entries : list dirent) (files : list string) :=
               match entries with
               | [] => files
               | e :: rest =>
                   each rest (walk_entry fullPath (above ++ [name]) e files)
               end) entries files
        end
    | File name =>
        if (includeMatcher relPath || includeMatcher name)%bool
        then files ++ [fullPath]
        else files
    | Other name => files
    end.

(** The [for] loop of [walk(dir)] over the entries read. *)
Definition walk_entries (dir : string) (above : list string)
    (entries : list dirent) (files : list string) : list string :=
  foldl (fun files e => walk_entry dir above e files) files entries.

(** [walk(dir)]: a directory that cannot be read adds nothing. *)
Definition walk (dir : string) (above : list string)
    (listing : option (list dirent)) (files : list string) : list string :=
  match listing with
  | None => files
  | Some entries => walk_entries dir above entries files
  end.
End Walk.

(** The constructors at the head of [collectFiles], in the order of the
    calls: the include pattern, then the exclude patterns one after the
    other. The first one that throws ends [collectFiles], and [run] with
    it: no [try] is around them. *)
Definition matcher_error (P : platform) (includePattern : string)
    (excludePatterns : list string) : option string :=
  match minimatch_throws P includePattern with
  | Some error => Some error
  | None =>
      list_find_map_first
        (fun pattern => minimatch_throws P (replace_backslashes pattern))
        excludePatterns
  end.

(** [collectFiles] once the constructors have returned. *)
Definition collectFiles (P : platform) (rootDir : string)
    (listing : option (list dirent)) (includePattern : string)
    (excludePatterns : list string) : list string :=
  let includeMatcher := minimatch P false includePattern in
  let excludeMatchers :=
    map (fun pattern => minimatch P true (replace_backslashes pattern))
      excludePatterns in
  walk includeMatcher excludeMatchers rootDir [] listing [].


(** *** The worker pool of [run] *)

(** The variables of [run] that the workers share, the disk, the console,
    and a record of the claims: the pairs of a worker and the index it took
    from the cursor and found inside the list. *)
Record state : Type := mkState {
  index : nat;
  filesChecked : nat;
  filesChanged : nat;
  changedFiles : list string;
  disk : gmap string file;
  console : list output;
  claimed : list (nat * nat)
}.

Definition set_index (i : nat) (st : state) : state :=
  mkState i (filesChecked st) (filesChanged st) (changedFiles st) (disk st)
    (console st) (claimed st).
Definition count_checked (st : state) : state :=
  mkState (index st) (S (filesChecked st)) (filesChanged st) (changedFiles st)
    (disk st) (console st) (claimed st).
Definition count_changed (filePath : string) (st : state) : state :=
  mkState (index st) (filesChecked st) (S (filesChanged st))
    (changedFiles st ++ [filePath]) (disk st) (console st) (claimed st).
Definition set_disk (d : gmap string file) (st : state) : state :=
  mkState (index st) (filesChecked st) (filesChanged st) (changedFiles st) d
    (console st) (claimed st).
Definition print (line : output) (st : state) : state :=
  mkState (index st) (filesChecked st) (filesChanged st) (changedFiles st)
    (disk st) (console st ++ [line]) (claimed st).
Definition record_claim (w i : nat) (st : state) : state :=
  mkState (index st) (filesChecked st) (filesChanged st) (changedFiles st)
    (disk st) (console st) (claimed st ++ [(w, i)]).

Definition format_error (filePath message : string) : output :=
  Error ("Error formatting " +:+ filePath +:+ ": " +:+ message).

Section Workers.
Variable P : platform.
Variable o : options.
Variable files : list string.

(** The [try] block of the worker with its [catch]. *)
Definition try_format (filePath : string) (st : state) : state :=
  match formatFile P (disk st) filePath with
  | Throws message => print (format_error filePath message) st
  | Returns (formattedText, changed) =>
      let st := count_checked st in
      if changed then
        let st := count_changed filePath st in
        let st :=
          if silent o then st
          else
            let label := if (dry o || check o)%bool then "Would format"
                         else "Formatted" in
            print (Log (label +:+ ": " +:+ filePath)) st in
        if (negb (dry o) && negb (check o))%bool then
          match writeFileSync P (disk st) filePath formattedText with
          | Throws message => print (format_error filePath message) st
          | Returns d => set_disk d st
          end
        else st
      else st
  end.

(** The body of the [while] loop once the index is inside the list. *)
Definition process (filePath : string) (st : state) : state :=
  if negb (isTextFile (disk st) filePath) then st
  else try_format filePath st.

(** [worker()], called as worker number [w]. The function has no [await]:
    a call runs its [while (true)] loop to the [return] before the caller
    goes on. [files !! i] is [None] exactly when [i >= files.length]. *)
Fixpoint worker_loop (fuel : nat) (w : nat) (st : state) : option state :=
  match fuel with
  | O => None
  | S fuel =>
      let i := index st in
      let st := set_index (S i) st in
      match files !! i with
      | None => Some st
      | Some filePath => worker_loop fuel w (process filePath (record_claim w i st))
      end
  end.

Definition worker (w : nat) (st : state) : option state :=
  worker_loop (S (length files)) w st.

(** [for (let i = 0; i < concurrency; i++) workers.push(worker())], from
    worker number [w] on, [n] workers left to start. *)
Fixpoint start_workers (n : nat) (w : nat) (st : state) : option state :=
  match n with
  | O => Some st
  | S n =>
      match worker w st with
      | None => None
      | Some st => start_workers n (S w) st
      end
  end.

(** [options.concurrency || os.cpus().length || 4] *)
Definition pool_size : Z :=
  if concurrency o =? 0 then (if cpus P =? 0 then 4 else cpus P)
  else concurrency o.

(** The apply phase: the counters at zero, the cursor at zero, the workers
    started one after the other, and [await Promise.all(workers)]. *)
Definition apply_phase (d : gmap string file) (out : list output) : option state :=
  start_workers (Z.to_nat pool_size) 0%nat (mkState 0 0 0 [] d out []).
End Workers.

(** *** [run] *)

Definition dquote : string := String (ascii_of_nat 34) EmptyString.
Definition newline : string := String (ascii_of_nat 10) EmptyString.

Definition printHelp : list output :=
  [ Log ("Usage: format-ts [options] <dir|file>" +:+ newline);
    Log "Options:";
    Log "  --dir <path>         Root directory or file to format (alternative to positional <dir|file>)";
    Log ("  --include <glob>     Include glob (default: " +:+ dquote
           +:+ "**/*.{ts,tsx,js}" +:+ dquote +:+ ")");
    Log "  --exclude <glob>     Exclude glob(s), comma-separated (default: node_modules,dist,build,coverage,.git)";
    Log "  --concurrency <n>    Max concurrent files to process (default: 8)";
    Log "  --dry                Dry-run: do not write files, just report changes";
    Log "  --check              Check mode: exit with non-zero code if any file would be changed";
    Log "  --silent             Reduce logging output";
    Log "  -h, --help           Show this help" ].

(** What a run leaves behind: [process.exitCode] ([None] while it was never
    assigned), the console, the disk, and the state of the worker pool when
    the apply phase was reached. *)
Record result : Type := mkResult {
  exitCode : option Z;
  printed : list output;
  stored : gmap string file;
  pool : option state
}.

(** The status the process ends with: an exit code never assigned is 0. *)
Definition exit_status (r : result) : Z := default 0 (exitCode r).

(** [run] from the place where [files] is known. *)
Definition run_files (P : platform) (o : options) (d : gmap string file)
    (files : list string) (out : list output) : option result :=
  match apply_phase P o files d out with
  | None => None
  | Some st =>
      let out := console st in
      let out :=
        if silent o then out
        else out ++ [ Log ""; Log "Summary:";
                      Log ("  Files checked:   " +:+ pretty (filesChecked st));
                      Log ("  Files formatted: " +:+ pretty (filesChanged st));
                      Log ("  Time elapsed:    " +:+ pretty (elapsedMs P) +:+ " ms") ] in
      if (dry o || check o)%bool then
        if (0 <? filesChanged st)%nat then
          let out :=
            if silent o then out
            else out ++ [Log ""; Log "Files that would be changed:"]
                     ++ map (fun f => Log ("  " +:+ f)) (changedFiles st) in
          Some (mkResult (Some 1) out (disk st) (Some st))
        else
          let out := if silent o then out else out ++ [Log "No changes needed."] in
          Some (mkResult (Some 0) out (disk st) (Some st))
      else Some (mkResult None out (disk st) (Some st))
  end.

Definition mode_lines (o : options) : list output :=
  (if dry o then [Log "Mode: dry-run"] else [])
  ++ (if check o then [Log "Mode: check"] else []).

(** A usage or configuration error: the lines printed, exit code 2, and the
    [return] of [run]. *)
Definition usage_error (d : gmap string file) (out : list output) : option result :=
  Some (mkResult (Some 2) out d None).

(** An exception that leaves [run]: the promise is rejected, and the
    [catch] at the end of the script prints the error and sets the exit
    code 1. *)
Definition rejected (d : gmap string file) (out : list output) : option result :=
  Some (mkResult (Some 1) out d None).

Definition run (P : platform) (fs : filesystem) (argv : list string) : option result :=
  let d := content fs in
  match parseArgs P argv with
  | Throws message =>
      usage_error d [ Error ("Error: " +:+ message);
                      Error "Use --help for usage information." ]
  | Returns (mkParsed o positionalPath showHelp) =>
      if showHelp then Some (mkResult None printHelp d None)
      else
        let targetFromFlag := dir o in
        let targetFromPositional := positionalPath in
        if (negb (defined_truthy targetFromFlag)
            && negb (defined_truthy targetFromPositional))%bool then
          usage_error d (printHelp ++ [Error (newline +:+ "Error: target path is required.")])
        else
          let out :=
            if (defined_truthy targetFromFlag && defined_truthy targetFromPositional
                && negb (silent o))%bool
            then [Warn "Warning: both positional path and --dir were provided; using positional path and ignoring --dir."]
            else [] in
          let rawTarget :=
            default EmptyString
              (if defined_truthy targetFromPositional then targetFromPositional
               else targetFromFlag) in
          let targetPath := resolve P rawTarget in
          match inspect fs targetPath with
          | Missing =>
              usage_error d (out ++ [Error ("Error: path does not exist: " +:+ targetPath)])
          | Unstatable =>
              usage_error d (out ++ [Error ("Error: failed to stat path: " +:+ targetPath)])
          | IsDirectory listing =>
              let rootDir := targetPath in
              let out :=
                if silent o then out
                else out ++ [ Log ("Formatting in directory: " +:+ rootDir);
                              Log ("Include: " +:+ include o);
                              Log ("Exclude: " +:+ String.concat ", " (exclude o));
                              Log ("Concurrency: " +:+ pretty (concurrency o)) ]
                         ++ mode_lines o in
              match matcher_error P (include o) (exclude o) with
              | Some error =>
                  rejected d (out ++ [Error ("Unexpected error: " +:+ error)])
              | None =>
                  let files := collectFiles P rootDir listing (include o) (exclude o) in
                  match files with
                  | [] =>
                      let out := if silent o then out
                                 else out ++ [Log "No matching files found."] in
                      Some (mkResult None out d None)
                  | _ :: _ =>
                      let out :=
                        if silent o then out
                        else out ++ [Log ("Found " +:+ pretty (length files)
                                            +:+ " file(s).")] in
                      run_files P o d files out
                  end
              end
          | IsFile =>
              let ext := extname_lower P targetPath in
              if (negb (String.eqb ext ".ts") && negb (String.eqb ext ".tsx")
                  && negb (String.eqb ext ".js"))%bool then
                usage_error d (out ++ [Error "Error: unsupported file type"])
              else
                let out :=
                  if silent o then out
                  else out ++ [Log ("Formatting file: " +:+ targetPath)] ++ mode_lines o in
                run_files P o d [targetPath] out
          | IsOther =>
              usage_error d
                (out ++ [Error "Error: target path is neither a file nor a directory"])
          end
  end.

End Cli.

(** ** A small concrete platform and tree, used to run the definitions *)

Module Sample.
Import Formatter Cli.

(** Decimal digits only. *)
Fixpoint digits (s : string) (acc : Z) : option Z :=
  match s with
  | EmptyString => Some acc
  | String c rest =>
      let n := nat_of_ascii c in
      if (Nat.leb 48 n && Nat.leb n 57)%bool
      then digits rest (10 * acc + Z.of_nat (n - 48))
      else None
  end.

Definition number (s : string) : jsnumber :=
  match s with
  | EmptyString => Integer 0
  | _ => match digits s 0 with
         | Some z => Integer z
         | None => NotInteger
         end
  end.

Fixpoint ends_with (suffix s : string) : bool :=
  (String.eqb s suffix
   || match s with
      | EmptyString => false
      | String _ rest => ends_with suffix rest
      end)%bool.

Fixpoint basename (s : string) : string :=
  match s with
  | EmptyString => EmptyString
  | String c rest =>
      if existsb (Ascii.eqb "/") (list_ascii_of_string rest) then basename rest
      else if Ascii.eqb c "/" then rest else s
  end.

(** The default include pattern selects by extension; any other pattern is
    taken as a literal name and, [matchBase] being set, compared with the
    last component of the path. *)
Definition matcher (dot : bool) (pattern path : string) : bool :=
  if String.eqb pattern "**/*.{ts,tsx,js}"
  then (ends_with ".ts" path || ends_with ".tsx" path || ends_with ".js" path)%bool
  else String.eqb (basename path) pattern.

Definition extension (p : string) : string :=
  if ends_with ".tsx" p then ".tsx"
  else if ends_with ".ts" p then ".ts"
  else if ends_with ".js" p then ".js"
  else EmptyString.

Definition decode (bs : list byte) : jsstring := map Byte.to_N bs.
Definition encode (s : jsstring) : list byte :=
  map (fun n => default x00 (Byte.of_N n)) s.

(** The bytes of a string literal. *)
Definition raw (s : string) : list byte := encode (str s).

(** A language service that spaces out [x=1], throws on [boom], and asks for
    a change past the end of [ab]. *)
Definition service (fileName : string) (text : jsstring)
    : completion (option (list TextChange)) :=
  if bool_decide (text = str "x=1") then
    Returns (Some [mkChange (mkSpan 1 0) (str " "); mkChange (mkSpan 2 0) (str " ")])
  else if bool_decide (text = str "boom") then Throws "Debug Failure."
  else if bool_decide (text = str "ab") then
    Returns (Some [mkChange (mkSpan 5 1) (str "X")])
  else Returns (Some []).

(** minimatch refuses a pattern of more than 64 * 1024 characters. *)
Definition too_long (pattern : string) : option string :=
  if Nat.ltb (64 * 1024) (String.length pattern)
  then Some "TypeError: pattern is too long" else None.

Definition node : platform :=
  mkPlatform number matcher too_long (fun p => p) extension decode encode service 8 12.

Definition plain (s : string) : file := mkFile (raw s) false None None.

(** [/r] holds [a.ts] (to be reformatted), [b.ts] (already formatted) and
    [node_modules/c.ts]. *)
Definition tree : option (list dirent) :=
  Some [File "a.ts"; File "b.ts"; Directory "node_modules" (Some [File "c.ts"])].

Definition files_of_r : gmap string file :=
  <["/r/a.ts" := plain "x=1"]>
    (<["/r/b.ts" := plain "x = 1"]>
       (<["/r/node_modules/c.ts" := plain "x=1"]> ∅)).

Definition fs_r : filesystem :=
  mkFs (fun p => if String.eqb p "/r" then IsDirectory tree else Missing) files_of_r.

(** A disk with one file, for which the language service asks for a change
    past the end. *)
Definition files_ab : gmap string file := <["/r/a.ts" := plain "ab"]> ∅.

(** [/r] with one more file, on which the language service throws. *)
Definition files_boom : gmap string file := <["/r/bad.ts" := plain "boom"]> files_of_r.

Definition past_the_end : TextChange := mkChange (mkSpan 5 1) (str "X").

(** A tree with the same file name at the top and two levels down. *)
Definition tree_deep : option (list dirent) :=
  Some [File "a.ts";
        Directory "src" (Some [Directory "deep" (Some [File "a.ts"])])].

(** Two edits of [abcd], the one at the higher offset first. *)
Definition e_lo : TextChange := mkChange (mkSpan 0 1) (str "YYY").
Definition e_hi : TextChange := mkChange (mkSpan 2 1) (str "XX").

End Sample.

(** ** Notions used to state the properties of the pipeline *)

Module Pipeline.
Import Cli.

(** The files of a list processed one after the other. *)
Definition process_all (P : platform) (o : options) (files : list string)
    (st : state) : state :=
  foldl (fun st filePath => process P o filePath st) st files.

Definition add_claims (claims : list (nat * nat)) (st : state) : state :=
  mkState (index st) (filesChecked st) (filesChanged st) (changedFiles st)
    (disk st) (console st) (claimed st ++ claims).

(** What one call of [worker] leaves behind when it finds the cursor at
    [i] and [rest] are the files from there on. *)
Definition finish (P : platform) (o : options) (w i : nat) (rest : list string)
    (st : state) : state :=
  mkState (S (i + length rest)) (filesChecked (process_all P o rest st))
    (filesChanged (process_all P o rest st))
    (changedFiles (process_all P o rest st)) (disk (process_all P o rest st))
    (console (process_all P o rest st))
    (claimed (process_all P o rest st) ++ map (pair w) (seq i (length rest))).

(** The state of the pool before the first worker starts. *)
Definition initial (d : gmap string file) (out : list output) : state :=
  mkState 0 0 0 [] d out [].

(** What the summary and the outcome are made of. *)
Definition tally (st : state) : nat * nat * list string * gmap string file :=
  (filesChecked st, filesChanged st, changedFiles st, disk st).

(** The probe cannot open or read the file. *)
Definition unreadable (d : gmap string file) (filePath : string) : Prop :=
  match d !! filePath with
  | None => True
  | Some f => probe_fails f = true
  end.

(** The probe reads the file and finds a zero byte. *)
Definition binary (d : gmap string file) (filePath : string) : Prop :=
  exists f, d !! filePath = Some f /\ probe_fails f = false
            /\ existsb is_nul (take 1024 (bytes f)) = true.

(** [targetFromPositional || targetFromFlag] in [run]. *)
Definition rawTarget (o : options) (positional : option string) : string :=
  default EmptyString
    (if defined_truthy positional then positional else dir o).

(** The arguments [parseArgs] knows. *)
Definition known_flags : list string :=
  ["-h"; "--help"; "--dir"; "--include"; "--exclude"; "--concurrency";
   "--dry"; "--check"; "--silent"].

(** [Number(next)] is an integer above zero. *)
Definition positive_integer (P : platform) (next : string) : bool :=
  match Number P next with
  | Integer n => 0 <? n
  | NotInteger => false
  end.

End Pipeline.

(** ** Notions used to state further properties *)

Module EditNotions.
Import Formatter.

(** By how much the edits change the length of the text: for each one, the
    length of the replacement minus the length of the range. *)
Definition net_growth (edits : list TextChange) : Z :=
  foldr (fun e total =>
           Z.of_nat (List.length (newText e)) - length (span e) + total) 0 edits.

(** The replacement of the edit is the text that its range holds. *)
Definition in_place (original : jsstring) (e : TextChange) : Prop :=
  newText e = slice original (start (span e)) (Some (stop e)).

End EditNotions.

Module WalkNotions.
Import Cli.

(** The files that [walk] can reach from the entries of a directory: the
    files among the entries, and the files reached from the listing of a
    directory among them that can be read and that the exclude patterns
    leave in. A file comes with its full path, its path relative to the
    root and its name. *)
Inductive reachable (excludeMatchers : list (string -> bool))
    : string -> list string -> list dirent -> string -> string -> string -> Prop :=
| reachable_here (dir : string) (above : list string) (entries : list dirent)
    (name : string) :
    File name ∈ entries ->
    reachable excludeMatchers dir above entries
      (join dir name) (relative above name) name
| reachable_below (dir : string) (above : list string) (entries : list dirent)
    (sub : string) (listing : list dirent) (fullPath relPath name : string) :
    Directory sub (Some listing) ∈ entries ->
    excluded excludeMatchers (relative above sub) sub = false ->
    reachable excludeMatchers (join dir sub) (above ++ [sub]) listing
      fullPath relPath name ->
    reachable excludeMatchers dir above entries fullPath relPath name.

End WalkNotions.

Module StringNotions.
Import Cli.

(** The character occurs in the string. *)
Fixpoint occurs (c : ascii) (s : string) : bool :=
  match s with
  | EmptyString => false
  | String c' rest => (Ascii.eqb c' c || occurs c rest)%bool
  end.

(** A pattern that is not empty, holds no comma and has no white space at
    its ends. *)
Definition clean (pattern : string) : Prop :=
  truthy pattern = true /\ occurs "," pattern = false /\ trim pattern = pattern.

End StringNotions.

Module RunNotions.
Import Cli Pipeline.

(** The run [r] has gone through the apply phase for the file list [files]:
    its pool state is the one the apply phase returns, the counters, the
    list of changed paths and the disk are those of the files processed one
    after the other, and the exit status follows from the mode and from
    [filesChanged]. *)
Definition applied (P : platform) (o : options) (d : gmap string file)
    (files : list string) (r : result) : Prop :=
  exists st out,
    apply_phase P o files d out = Some st
    /\ pool r = Some st
    /\ stored r = disk st
    /\ tally st = tally (process_all P o files (initial d []))
    /\ ((dry o || check o)%bool = false -> exit_status r = 0)
    /\ ((dry o || check o)%bool = true ->
          (exit_status r <> 0 <-> (0 < filesChanged st)%nat)
          /\ (exit_status r = 0 \/ exit_status r = 1)).

(** A line written by [console.error]. *)
Definition is_error (line : output) : bool :=
  match line with
  | Error _ => true
  | _ => false
  end.

End RunNotions.

(** ** src/build-bun.sh: the choice of the targets *)

Module BuildBun.
Import Cli.










End BuildBun.

(** ** More concrete inputs *)

Module MoreSample.
Import Cli Sample.


(** A file system in which the target [/r/a.ts] is a file. *)
Definition fs_file : filesystem :=
  mkFs (fun p => if String.eqb p "/r/a.ts" then IsFile else Missing) files_of_r.

(** [/r] with a file on which the language service throws. *)
Definition fs_boom : filesystem :=
  mkFs (fun p => if String.eqb p "/r"
                 then IsDirectory (Some [File "a.ts"; File "bad.ts"]) else Missing)
    files_boom.


End MoreSample.

(** * Properties *)

(** ** The edit applier *)

Module FormatterFacts.
Import Formatter.

Section Slices.
Variable s : jsstring.

Lemma slice_prefix (n : Z) :
  0 <= n <= Z.of_nat (Datatypes.length s) ->
  slice s 0 (Some n) = take (Z.to_nat n) s.
Proof.
  intros Hn. unfold slice, clamp_index.
  replace (0 <? 0) with false by reflexivity.
  destruct (Z.ltb_spec n 0) as [?|_]; [lia|].
  rewrite !Z.min_l by lia. simpl. rewrite drop_0. f_equal. lia.
Qed.

Lemma slice_suffix (n : Z) :
  0 <= n <= Z.of_nat (Datatypes.length s) ->
  slice s n None = drop (Z.to_nat n) s.
Proof.
  intros Hn. unfold slice, clamp_index.
  destruct (Z.ltb_spec n 0) as [?|_]; [lia|].
  rewrite Z.min_l by lia. apply take_ge. rewrite length_drop. lia.
Qed.

Lemma slice_between (a b : Z) :
  0 <= a -> a <= b -> b <= Z.of_nat (Datatypes.length s) ->
  slice s a (Some b) = take (Z.to_nat (b - a)) (drop (Z.to_nat a) s).
Proof.
  intros Ha Hab Hb. unfold slice, clamp_index.
  destruct (Z.ltb_spec a 0) as [?|_]; [lia|].
  destruct (Z.ltb_spec b 0) as [?|_]; [lia|].
  rewrite !Z.min_l by lia. reflexivity.
Qed.

(** Past the end, both slices are cut to the buffer. *)
Lemma slice_beyond (n : Z) :
  Z.of_nat (Datatypes.length s) <= n -> slice s n None = [].
Proof.
  intros Hn. unfold slice, clamp_index.
  destruct (Z.ltb_spec n 0) as [?|_]; [lia|].
  rewrite Z.min_r by lia. rewrite Z.sub_diag. reflexivity.
Qed.

Lemma slice_whole (n : Z) :
  Z.of_nat (Datatypes.length s) <= n -> slice s 0 (Some n) = s.
Proof.
  intros Hn. unfold slice, clamp_index.
  replace (0 <? 0) with false by reflexivity.
  destruct (Z.ltb_spec n 0) as [?|_]; [lia|].
  rewrite Z.min_r by lia. rewrite Z.min_l by lia.
  simpl. rewrite drop_0. apply take_ge. lia.
Qed.
End Slices.

Lemma ascending_from_bound original cursor edits :
  ascending_from original cursor edits ->
  cursor <= Z.of_nat (List.length original).
Proof.
  revert cursor. induction edits as [|e rest IH]; simpl; intros cursor H.
  - exact H.
  - destruct H as (H1 & H2 & H3). apply IH in H3. unfold stop in H3. lia.
Qed.

(** Going down the array from its end, the loop has rewritten the buffer
    from [cursor] on and left everything before it as it was. *)
Lemma back_to_front_splice original edits :
  forall cursor, 0 <= cursor ->
    ascending_from original cursor edits ->
    apply_back_to_front edits original
    = take (Z.to_nat cursor) original ++ splice_from original cursor edits.
Proof.
  induction edits as [|e rest IH]; intros cursor Hc Hasc.
  - simpl in *. rewrite slice_suffix by lia. symmetry. apply take_drop.
  - destruct Hasc as (H1 & H2 & H3).
    pose proof (ascending_from_bound _ _ _ H3) as Hstop.
    assert (0 <= stop e) as Hstop0 by (unfold stop; lia).
    change (apply_back_to_front (e :: rest) original)
      with (apply_edit e (apply_back_to_front rest original)).
    rewrite (IH (stop e) Hstop0 H3).
    set (tail := splice_from original (stop e) rest).
    assert (List.length (take (Z.to_nat (stop e)) original) = Z.to_nat (stop e))
      as Hlen by (apply length_take_le; lia).
    unfold apply_edit. fold (stop e).
    rewrite slice_prefix
      by (rewrite length_app, Hlen; unfold stop in *; lia).
    rewrite slice_suffix by (rewrite length_app, Hlen; lia).
    rewrite take_app_le by (rewrite Hlen; unfold stop in *; lia).
    rewrite take_take, Nat.min_l by (unfold stop in *; lia).
    rewrite drop_app_length' by (symmetry; exact Hlen).
    simpl. fold tail.
    rewrite slice_between by (unfold stop in *; lia).
    rewrite (app_assoc (take (Z.to_nat cursor) original)), take_take_drop.
    do 2 f_equal. lia.
Qed.

Lemma sort_by_start_ascending original edits :
  forall cursor, ascending_from original cursor edits ->
    sort_by_start edits = edits.
Proof.
  induction edits as [|e rest IH]; intros cursor Hasc; [reflexivity|].
  destruct Hasc as (H1 & H2 & H3).
  change (sort_by_start (e :: rest)) with (insert_by_start e (sort_by_start rest)).
  rewrite (IH _ H3).
  destruct rest as [|x rest']; [reflexivity|].
  simpl. destruct H3 as (H3 & _).
  destruct (Z.leb_spec (start (span e)) (start (span x))) as [_|?];
    [reflexivity | unfold stop in *; lia].
Qed.

Lemma ascending_from_weaken original c c' edits :
  c' <= c -> ascending_from original c edits -> ascending_from original c' edits.
Proof.
  intros Hc. destruct edits as [|e rest]; simpl; [lia|].
  intros (H1 & H2 & H3). repeat split; [lia | exact H2 | exact H3].
Qed.

Lemma ascending_from_in_bounds original edits :
  forall cursor, 0 <= cursor -> ascending_from original cursor edits ->
    Forall (in_bounds original) edits
    /\ Forall (fun e => cursor <= start (span e)) edits
    /\ non_overlapping edits.
Proof.
  induction edits as [|e rest IH]; intros cursor Hc Hasc.
  - repeat split; constructor.
  - destruct Hasc as (H1 & H2 & H3).
    assert (0 <= stop e) as Hstop0 by (unfold stop; lia).
    destruct (IH _ Hstop0 H3) as (Hb & Hs & Hn).
    pose proof (ascending_from_bound _ _ _ H3) as Hstop.
    repeat split.
    + constructor; [|exact Hb]. unfold in_bounds. lia.
    + constructor; [exact H1|].
      eapply Forall_impl; [exact Hs|]. simpl. intros x Hx. unfold stop in *. lia.
    + constructor; [|exact Hn].
      eapply Forall_impl; [exact Hs|]. simpl. intros x Hx. left. exact Hx.
Qed.

(** C1, as the specification states it, does not hold: the applier does not
    sort. For the two separate, in-bounds edits of [abcd] handed over with
    the higher offset first, [format] applies the lower one first and then
    cuts at an offset that has moved; the result differs from the
    simultaneous application. *)
Lemma unsorted_edits_diverge :
  non_overlapping [Sample.e_lo; Sample.e_hi]
  /\ Forall (in_bounds (str "abcd")) [Sample.e_lo; Sample.e_hi]
  /\ Permutation [Sample.e_hi; Sample.e_lo] [Sample.e_lo; Sample.e_hi]
  /\ apply_edits (Some [Sample.e_hi; Sample.e_lo]) (str "abcd") = str "YYXXbcd"
  /\ simultaneous (str "abcd") [Sample.e_lo; Sample.e_hi] = str "YYYbXXd"
  /\ apply_edits (Some [Sample.e_hi; Sample.e_lo]) (str "abcd")
     <> simultaneous (str "abcd") [Sample.e_lo; Sample.e_hi].
Proof.
  split; [|split; [|split; [|split; [|split]]]].
  - repeat constructor. vm_compute. discriminate.
  - repeat constructor; vm_compute; discriminate.
  - apply perm_swap.
  - reflexivity.
  - reflexivity.
  - vm_compute. discriminate.
Qed.

(** C1, amended: for every edit set that is in bounds and is delivered in
    ascending order, each edit ending at or before the start of the next
    (so that the ranges are pairwise separate), [format] returns the
    simultaneous application of the edits to the original buffer. The
    applier walks the array from its last element to its first and does not
    sort it. *)
Theorem back_to_front_is_simultaneous (original : jsstring) (edits : list TextChange) :
  ascending_from original 0 edits ->
  Forall (in_bounds original) edits
  /\ non_overlapping edits
  /\ apply_edits (Some edits) original = simultaneous original edits
  /\ forall (service : oracle) (fileName : string),
       service fileName original = Returns (Some edits) ->
       format service fileName original = Returns (simultaneous original edits).
Proof.
  intros Hasc.
  destruct (ascending_from_in_bounds original edits 0 ltac:(lia) Hasc)
    as (Hb & _ & Hn).
  assert (apply_edits (Some edits) original = simultaneous original edits) as Heq.
  { unfold simultaneous. rewrite (sort_by_start_ascending _ _ _ Hasc).
    destruct edits as [|e rest].
    - simpl. rewrite slice_suffix by lia. reflexivity.
    - unfold apply_edits.
      rewrite (back_to_front_splice original (e :: rest) 0 ltac:(lia) Hasc).
      reflexivity. }
  repeat split; try assumption.
  intros service fileName Hs. unfold format. rewrite Hs, Heq. reflexivity.
Qed.

Lemma back_to_front_is_simultaneous_witness :
  ascending_from (str "abcd") 0 [Sample.e_lo; Sample.e_hi]
  /\ apply_edits (Some [Sample.e_lo; Sample.e_hi]) (str "abcd")
     = simultaneous (str "abcd") [Sample.e_lo; Sample.e_hi].
Proof.
  assert (ascending_from (str "abcd") 0 [Sample.e_lo; Sample.e_hi]) as H
    by (vm_compute; repeat split; discriminate).
  split; [exact H|].
  apply (back_to_front_is_simultaneous (str "abcd") [Sample.e_lo; Sample.e_hi] H).
Defined.

End FormatterFacts.

(** ** The worker pool *)

Module WorkerFacts.
Import Formatter Cli Pipeline.

Ltac reduce_state :=
  cbn [disk index filesChecked filesChanged changedFiles console claimed
       set_index record_claim print count_checked count_changed set_disk
       add_claims negb andb orb] in *.

Ltac by_cases_of_process o :=
  unfold process, try_format;
  destruct (silent o), (dry o), (check o); reduce_state;
  repeat (case_match; reduce_state); simplify_eq; reflexivity.

Section Loop.
Variable P : platform.
Variable o : options.

Lemma process_set_index filePath i st :
  process P o filePath (set_index i st) = set_index i (process P o filePath st).
Proof. by_cases_of_process o. Qed.

Lemma process_record_claim filePath w i st :
  process P o filePath (record_claim w i st)
  = record_claim w i (process P o filePath st).
Proof. by_cases_of_process o. Qed.

Lemma process_index filePath st : index (process P o filePath st) = index st.
Proof. by_cases_of_process o. Qed.

Lemma process_claimed filePath st : claimed (process P o filePath st) = claimed st.
Proof. by_cases_of_process o. Qed.

Lemma process_all_set_index files : forall i st,
  process_all P o files (set_index i st) = set_index i (process_all P o files st).
Proof.
  induction files as [|f rest IH]; intros i st; [reflexivity|].
  simpl. rewrite process_set_index. apply IH.
Qed.

Lemma process_all_record_claim files : forall w i st,
  process_all P o files (record_claim w i st)
  = record_claim w i (process_all P o files st).
Proof.
  induction files as [|f rest IH]; intros w i st; [reflexivity|].
  simpl. rewrite process_record_claim. apply IH.
Qed.

Lemma process_all_index files : forall st,
  index (process_all P o files st) = index st.
Proof.
  induction files as [|f rest IH]; intros st; [reflexivity|].
  simpl. rewrite IH. apply process_index.
Qed.

Lemma process_all_app pre post st :
  process_all P o (pre ++ post) st = process_all P o post (process_all P o pre st).
Proof. apply foldl_app. Qed.

Variable files : list string.

Lemma worker_loop_finish : forall rest fuel w st,
  drop (index st) files = rest ->
  (Datatypes.length rest < fuel)%nat ->
  worker_loop P o files fuel w st = Some (finish P o w (index st) rest st).
Proof.
  induction rest as [|f rest IH]; intros fuel w st Hdrop Hfuel;
    (destruct fuel as [|fuel]; [simpl in Hfuel; lia|]).
  - simpl. apply drop_nil_inv in Hdrop.
    rewrite (lookup_ge_None_2 files (index st)) by lia.
    unfold finish. destruct st. simpl. unfold set_index, add_claims. simpl.
    rewrite app_nil_r, Nat.add_0_r. reflexivity.
  - assert (files !! index st = Some f) as Hf.
    { rewrite <- (Nat.add_0_r (index st)), <- lookup_drop, Hdrop. reflexivity. }
    assert (drop (S (index st)) files = rest) as Hrest.
    { replace (S (index st)) with (index st + 1)%nat by lia.
      rewrite <- drop_drop, Hdrop. reflexivity. }
    simpl. rewrite Hf.
    rewrite IH; [| rewrite process_index; exact Hrest | simpl in Hfuel; lia ].
    f_equal. rewrite process_index. unfold finish. simpl.
    rewrite process_record_claim, process_set_index.
    rewrite process_all_record_claim, process_all_set_index.
    destruct (process_all P o rest (process P o f st)).
    unfold set_index, add_claims, record_claim. simpl.
    rewrite <- app_assoc. simpl. do 2 f_equal. lia.
Qed.

(** A call of [worker] returns, whatever the state of the cursor. *)
Lemma worker_returns w st :
  worker P o files w st
  = Some (finish P o w (index st) (drop (index st) files) st).
Proof.
  apply worker_loop_finish; [reflexivity|]. rewrite length_drop. lia.
Qed.

(** Workers started when the cursor is past the list only move it. *)
Lemma idle_workers : forall n w st,
  (Datatypes.length files <= index st)%nat ->
  start_workers P o files n w st = Some (set_index (index st + n) st).
Proof.
  induction n as [|n IH]; intros w st Hi.
  - simpl. destruct st. unfold set_index. simpl. rewrite Nat.add_0_r. reflexivity.
  - simpl. rewrite worker_returns.
    rewrite (drop_ge files (index st)) by lia.
    rewrite IH by (simpl; lia).
    f_equal. destruct st. unfold finish, set_index, add_claims. simpl.
    rewrite app_nil_r. f_equal. lia.
Qed.

(** The pool: the first worker goes through the whole list, the others
    find it exhausted. *)
Lemma start_workers_from_zero n st :
  index st = 0%nat ->
  start_workers P o files (S n) 0 st
  = Some (set_index (S (Datatypes.length files) + n) (finish P o 0 0 files st)).
Proof.
  intros Hi. simpl. rewrite worker_returns, Hi, drop_0.
  rewrite idle_workers by (simpl; lia).
  reflexivity.
Qed.

Lemma start_workers_returns n w st :
  exists st', start_workers P o files n w st = Some st'.
Proof.
  revert w st. induction n as [|n IH]; intros w st; simpl; [eauto|].
  rewrite worker_returns. apply IH.
Qed.
End Loop.

End WorkerFacts.

(** ** The apply phase *)

Module PipelineFacts.
Import Formatter Cli Pipeline WorkerFacts.

Lemma filter_agree_on (P1 P2 : string -> Prop)
    `{forall x, Decision (P1 x)} `{forall x, Decision (P2 x)} (l : list string) :
  (forall x, x ∈ l -> P1 x <-> P2 x) -> filter P1 l = filter P2 l.
Proof.
  induction l as [|x l IH]; intros Hagree; [reflexivity|].
  assert (filter P1 l = filter P2 l) as Hl
    by (apply IH; intros y Hy; apply Hagree; right; exact Hy).
  pose proof (Hagree x ltac:(left)) as Hx.
  destruct (decide (P1 x)) as [H1|H1].
  - rewrite !filter_cons_True by tauto. f_equal. exact Hl.
  - rewrite !filter_cons_False by tauto. exact Hl.
Qed.

Lemma sublist_filter_elem (l1 l2 : list string) :
  sublist l1 l2 -> NoDup l2 -> l1 = filter (fun f => f ∈ l1) l2.
Proof.
  induction 1 as [|x l1 l2 Hsub IH|x l1 l2 Hsub IH]; intros Hnd.
  - reflexivity.
  - apply NoDup_cons in Hnd as [Hx Hnd].
    rewrite filter_cons_True by (left; reflexivity).
    f_equal. rewrite (IH Hnd) at 1.
    apply filter_agree_on. intros y Hy.
    rewrite elem_of_cons. split; [auto|].
    intros [->|?]; [contradiction|assumption].
  - apply NoDup_cons in Hnd as [Hx Hnd].
    rewrite filter_cons_False; [exact (IH Hnd)|].
    intros Hin. apply Hx. eapply elem_of_sublist; eassumption.
Qed.

Section Pool.
Variable P : platform.

(** [process] looks at three options only. *)
Lemma process_options (o1 o2 : options) filePath st :
  silent o1 = silent o2 -> dry o1 = dry o2 -> check o1 = check o2 ->
  process P o1 filePath st = process P o2 filePath st.
Proof.
  intros Hs Hd Hc. unfold process, try_format. rewrite Hs, Hd, Hc. reflexivity.
Qed.

Lemma process_all_options (o1 o2 : options) files : forall st,
  silent o1 = silent o2 -> dry o1 = dry o2 -> check o1 = check o2 ->
  process_all P o1 files st = process_all P o2 files st.
Proof.
  induction files as [|f rest IH]; intros st Hs Hd Hc; [reflexivity|].
  simpl. rewrite (process_options o1 o2) by assumption. apply IH; assumption.
Qed.

(** The two read-only modes run the same code. *)
Lemma process_read_only (o1 o2 : options) filePath st :
  silent o1 = silent o2 ->
  (dry o1 || check o1)%bool = true -> (dry o2 || check o2)%bool = true ->
  process P o1 filePath st = process P o2 filePath st.
Proof.
  intros Hs H1 H2. unfold process, try_format. rewrite Hs, H1, H2.
  replace (negb (dry o1) && negb (check o1))%bool with false
    by (destruct (dry o1), (check o1); simpl in *; congruence).
  replace (negb (dry o2) && negb (check o2))%bool with false
    by (destruct (dry o2), (check o2); simpl in *; congruence).
  reflexivity.
Qed.

Variable o : options.

(** In a read-only mode [process] leaves the disk as it is. *)
Lemma process_keeps_disk filePath st :
  (dry o || check o)%bool = true -> disk (process P o filePath st) = disk st.
Proof.
  intros H. unfold process, try_format.
  destruct (silent o), (dry o), (check o); try discriminate H; reduce_state;
    repeat (case_match; reduce_state); reflexivity.
Qed.

Lemma process_all_keeps_disk files : forall st,
  (dry o || check o)%bool = true -> disk (process_all P o files st) = disk st.
Proof.
  induction files as [|f rest IH]; intros st H; [reflexivity|].
  simpl. rewrite IH by exact H. apply process_keeps_disk, H.
Qed.

(** [process] appends the path to the list of changed files or leaves the
    list alone. *)
Lemma process_changedFiles filePath st :
  changedFiles (process P o filePath st) = changedFiles st
  \/ changedFiles (process P o filePath st) = changedFiles st ++ [filePath].
Proof.
  unfold process, try_format.
  destruct (silent o), (dry o), (check o); reduce_state;
    repeat (case_match; reduce_state); auto.
Qed.

Lemma process_all_changedFiles files : forall st,
  exists added, changedFiles (process_all P o files st) = changedFiles st ++ added
                /\ sublist added files.
Proof.
  induction files as [|f rest IH]; intros st.
  - exists []. simpl. rewrite app_nil_r. split; [reflexivity|constructor].
  - simpl. destruct (IH (process P o f st)) as (added & Heq & Hsub).
    destruct (process_changedFiles f st) as [Hc|Hc]; rewrite Hc in Heq.
    + exists added. split; [exact Heq|]. apply sublist_cons, Hsub.
    + exists (f :: added). rewrite <- app_assoc in Heq.
      split; [exact Heq|]. apply sublist_skip, Hsub.
Qed.

(** The counters, the list and the disk after [process] depend on the
    counters, the list and the disk before it, not on the console. *)
Lemma process_tally filePath st1 st2 :
  tally st1 = tally st2 ->
  tally (process P o filePath st1) = tally (process P o filePath st2).
Proof.
  destruct st1, st2. unfold tally. cbn. intros [= -> -> -> ->].
  unfold process, try_format.
  destruct (silent o), (dry o), (check o); reduce_state;
    repeat (case_match; reduce_state); simplify_eq; reflexivity.
Qed.

Lemma process_all_tally files : forall st1 st2,
  tally st1 = tally st2 ->
  tally (process_all P o files st1) = tally (process_all P o files st2).
Proof.
  induction files as [|f rest IH]; intros st1 st2 H; [exact H|].
  simpl. apply IH, process_tally, H.
Qed.

(** The apply phase with a pool of at least one worker. *)
Lemma apply_phase_returns files d out :
  1 <= concurrency o ->
  apply_phase P o files d out
  = Some (set_index (Datatypes.length files + Z.to_nat (concurrency o))
            (finish P o 0 0 files (initial d out))).
Proof.
  intros Hc. unfold apply_phase, pool_size.
  destruct (Z.eqb_spec (concurrency o) 0) as [?|_]; [lia|].
  destruct (Z.to_nat (concurrency o)) as [|n] eqn:Hn; [lia|].
  fold (initial d out).
  rewrite start_workers_from_zero by reflexivity.
  do 2 f_equal. lia.
Qed.

(** The apply phase returns for every size of the pool. *)
Lemma apply_phase_total files d out :
  exists st, apply_phase P o files d out = Some st.
Proof. apply start_workers_returns. Qed.
End Pool.

Section PoolClaims.
Variable P : platform.

Lemma process_all_claimed o files : forall st,
  claimed (process_all P o files st) = claimed st.
Proof.
  induction files as [|f rest IH]; intros st; [reflexivity|].
  simpl. rewrite IH. apply process_claimed.
Qed.

Lemma start_workers_keeps_disk (o : options) files : forall n w st st',
  (dry o || check o)%bool = true ->
  start_workers P o files n w st = Some st' -> disk st' = disk st.
Proof.
  induction n as [|n IH]; intros w st st' Hro Hrun; simpl in Hrun.
  - congruence.
  - rewrite worker_returns in Hrun. rewrite (IH _ _ _ Hro Hrun).
    cbn. apply process_all_keeps_disk, Hro.
Qed.

Lemma process_all_read_only (o1 o2 : options) files : forall st,
  silent o1 = silent o2 ->
  (dry o1 || check o1)%bool = true -> (dry o2 || check o2)%bool = true ->
  process_all P o1 files st = process_all P o2 files st.
Proof.
  induction files as [|f rest IH]; intros st Hs H1 H2; [reflexivity|].
  simpl. rewrite (process_read_only P o1 o2) by assumption. apply IH; assumption.
Qed.

Lemma start_workers_read_only (o1 o2 : options) files n : forall w st,
  silent o1 = silent o2 ->
  (dry o1 || check o1)%bool = true -> (dry o2 || check o2)%bool = true ->
  start_workers P o1 files n w st = start_workers P o2 files n w st.
Proof.
  induction n as [|n IH]; intros w st Hs H1 H2; [reflexivity|].
  simpl. rewrite !worker_returns. unfold finish.
  rewrite (process_all_read_only o1 o2) by assumption.
  apply IH; assumption.
Qed.

(** C7: for every concurrency setting of at least one, the apply phase
    returns, and the claims recorded over all workers are the indices
    0, 1, ..., [files.length - 1], each exactly once: no index is
    processed twice, none is skipped, and the files have been processed
    one after the other in the order of the list. *)
Theorem every_file_claimed_once (o : options) (files : list string)
    (d : gmap string file) (out : list output) :
  1 <= concurrency o ->
  exists st,
    apply_phase P o files d out = Some st
    /\ map snd (claimed st) = seq 0 (Datatypes.length files)
    /\ NoDup (claimed st)
    /\ tally st = tally (process_all P o files (initial d out)).
Proof.
  intros Hc. eexists. split; [apply apply_phase_returns, Hc|].
  assert (map snd (claimed (set_index
              (Datatypes.length files + Z.to_nat (concurrency o))
              (finish P o 0 0 files (initial d out))))
          = seq 0 (Datatypes.length files)) as Hclaims.
  { cbn. rewrite process_all_claimed. cbn.
    rewrite List.map_map. cbn. apply List.map_id. }
  split; [exact Hclaims|]. split; [|reflexivity].
  apply (NoDup_fmap_1 snd).
  change (NoDup (map snd (claimed (set_index
            (Datatypes.length files + Z.to_nat (concurrency o))
            (finish P o 0 0 files (initial d out)))))).
  rewrite Hclaims. apply NoDup_seq.
Qed.

(** C9: for fixed files, disk and language service, any two concurrency
    settings of at least one give the same counters, the same list of
    changed paths in the same order, the same disk and the same console;
    the changed paths come in the order of the file list (they are that
    list restricted to the changed files), and one worker has made every
    claim: the workers never interleave. *)
Theorem concurrency_is_unobservable (o : options) (files : list string)
    (d : gmap string file) (out : list output) (c1 c2 : Z) :
  1 <= c1 -> 1 <= c2 ->
  exists st1 st2,
    apply_phase P (set_concurrency c1 o) files d out = Some st1
    /\ apply_phase P (set_concurrency c2 o) files d out = Some st2
    /\ filesChecked st1 = filesChecked st2
    /\ filesChanged st1 = filesChanged st2
    /\ changedFiles st1 = changedFiles st2
    /\ disk st1 = disk st2
    /\ console st1 = console st2
    /\ sublist (changedFiles st1) files
    /\ (NoDup files ->
        changedFiles st1 = filter (fun f => f ∈ changedFiles st1) files)
    /\ Forall (fun c => fst c = 0%nat) (claimed st1).
Proof.
  intros H1 H2. do 2 eexists.
  split; [apply apply_phase_returns; exact H1|].
  split; [apply apply_phase_returns; exact H2|].
  cbn.
  rewrite (process_all_options P (set_concurrency c1 o) (set_concurrency c2 o))
    by reflexivity.
  repeat (split; [reflexivity|]).
  destruct (process_all_changedFiles P (set_concurrency c2 o) files (initial d out))
    as (added & Heq & Hsub).
  cbn in Heq. rewrite Heq.
  split; [exact Hsub|]. split.
  - intros Hnd. apply sublist_filter_elem; assumption.
  - rewrite process_all_claimed. cbn.
    apply Forall_forall. intros c Hc.
    apply list_elem_of_In, List.in_map_iff in Hc as (i & <- & _). reflexivity.
Qed.

(** C4: for fixed files, disk and language service, the dry-run and the
    check mode leave the same counters and the same list of changed paths
    (their runs from the file list on are equal), and neither writes:
    the disk is the one the run started with. A disk that differs after
    the apply phase means the write mode, and in the write mode a changed
    file that can be written holds its formatted text afterwards. *)
Theorem read_only_modes_agree (o : options) (files : list string)
    (d : gmap string file) (out : list output) :
  exists stD stC,
    apply_phase P (set_dry o) files d out = Some stD
    /\ apply_phase P (set_check o) files d out = Some stC
    /\ filesChecked stD = filesChecked stC
    /\ filesChanged stD = filesChanged stC
    /\ changedFiles stD = changedFiles stC
    /\ disk stD = d /\ disk stC = d
    /\ run_files P (set_dry o) d files out = run_files P (set_check o) d files out
    /\ (forall o' st', apply_phase P o' files d out = Some st' ->
          disk st' <> d -> dry o' = false /\ check o' = false)
    /\ (forall o' filePath st formattedText f,
          dry o' = false -> check o' = false ->
          isTextFile (disk st) filePath = true ->
          formatFile P (disk st) filePath = Returns (formattedText, true) ->
          disk st !! filePath = Some f -> write_error f = None ->
          disk (process P o' filePath st)
          = <[filePath := mkFile (utf8_encode P formattedText) (probe_fails f)
                            (read_error f) (write_error f)]> (disk st)).
Proof.
  assert (forall o' st', (dry o' || check o')%bool = true ->
            apply_phase P o' files d out = Some st' -> disk st' = d) as Hkeep.
  { intros o' st' Hro Hrun.
    apply (start_workers_keeps_disk o' files _ _ _ _ Hro Hrun). }
  assert (apply_phase P (set_dry o) files d out
          = apply_phase P (set_check o) files d out) as Hsame.
  { apply start_workers_read_only; reflexivity || apply orb_true_r. }
  destruct (apply_phase_total P (set_check o) files d out) as (st & Hst).
  exists st, st. rewrite Hsame.
  split; [exact Hst|]. split; [exact Hst|].
  repeat (split; [reflexivity|]).
  assert (disk st = d) as Hd by (apply (Hkeep (set_check o)); [apply orb_true_r|exact Hst]).
  split; [exact Hd|]. split; [exact Hd|]. split.
  { unfold run_files. rewrite Hsame, Hst.
    cbn [dry check silent set_dry set_check orb]. rewrite orb_true_r. reflexivity. }
  split.
  - intros o' st' Hrun Hneq.
    destruct (dry o' || check o')%bool eqn:Hro.
    + exfalso. apply Hneq. eapply Hkeep; eassumption.
    + apply orb_false_elim in Hro. exact Hro.
  - intros o' filePath st0 formattedText f Hdry Hcheck Htext Hfmt Hf Hw.
    unfold process, try_format. rewrite Htext, Hfmt, Hdry, Hcheck.
    destruct (silent o'); reduce_state;
      unfold writeFileSync; rewrite Hf, Hw; reflexivity.
Qed.
End PoolClaims.

Section FileClaims.
Variable P : platform.
Variable o : options.

Lemma process_console filePath st :
  exists lines, console (process P o filePath st) = console st ++ lines.
Proof.
  unfold process, try_format.
  destruct (silent o), (dry o), (check o); reduce_state;
    repeat (case_match; reduce_state);
    solve [ exists []; symmetry; apply app_nil_r
          | eexists; reflexivity
          | eexists; rewrite <- app_assoc; reflexivity ].
Qed.

Lemma process_all_console files : forall st,
  exists lines, console (process_all P o files st) = console st ++ lines.
Proof.
  induction files as [|f rest IH]; intros st.
  - exists []. symmetry. apply app_nil_r.
  - simpl. destruct (IH (process P o f st)) as (l2 & H2).
    destruct (process_console f st) as (l1 & H1).
    exists (l1 ++ l2). rewrite H2, H1, app_assoc. reflexivity.
Qed.

Lemma process_throws filePath st message :
  isTextFile (disk st) filePath = true ->
  formatFile P (disk st) filePath = Throws message ->
  process P o filePath st = print (format_error filePath message) st.
Proof.
  intros Htext Hfmt. unfold process, try_format. rewrite Htext, Hfmt. reflexivity.
Qed.


Lemma process_skips filePath st :
  isTextFile (disk st) filePath = false -> process P o filePath st = st.
Proof. intros Htext. unfold process. rewrite Htext. reflexivity. Qed.

Lemma run_files_exit d files out :
  exists r st,
    run_files P o d files out = Some r
    /\ apply_phase P o files d out = Some st
    /\ pool r = Some st
    /\ stored r = disk st
    /\ exitCode r
       = if (dry o || check o)%bool
         then Some (if (0 <? filesChanged st)%nat then 1 else 0)
         else None.
Proof.
  destruct (apply_phase_total P o files d out) as (st & Hst).
  unfold run_files. rewrite Hst.
  destruct (dry o || check o)%bool;
    [destruct (0 <? filesChanged st)%nat eqn:Hchanged|];
    eexists; exists st; repeat split;
    cbn [exitCode pool stored]; rewrite ?Hchanged; reflexivity.
Qed.

(** C6: a file whose formatting throws (the file cannot be read, or the
    language service fails) is caught by the worker: an error line with
    the path of the file is printed, no counter moves, the path is not
    added to the list of changed files and the disk is left alone. The
    files after it are processed as if it had not been in the list, and
    the exit code of the run is the one of the run without it. *)
Theorem failed_file_is_reported_and_skipped (pre post : list string)
    (filePath message : string) (d : gmap string file) (out : list output) :
  let st := process_all P o pre (initial d out) in
  1 <= concurrency o ->
  isTextFile (disk st) filePath = true ->
  formatFile P (disk st) filePath = Throws message ->
  filesChecked (process P o filePath st) = filesChecked st
  /\ filesChanged (process P o filePath st) = filesChanged st
  /\ changedFiles (process P o filePath st) = changedFiles st
  /\ disk (process P o filePath st) = disk st
  /\ console (process P o filePath st)
     = console st
         ++ [Error ("Error formatting " +:+ filePath +:+ ": " +:+ message)]
  /\ exists st1 st2 r1 r2,
       apply_phase P o (pre ++ filePath :: post) d out = Some st1
       /\ apply_phase P o (pre ++ post) d out = Some st2
       /\ tally st1 = tally st2
       /\ Error ("Error formatting " +:+ filePath +:+ ": " +:+ message) ∈ console st1
       /\ run_files P o d (pre ++ filePath :: post) out = Some r1
       /\ run_files P o d (pre ++ post) out = Some r2
       /\ exitCode r1 = exitCode r2.
Proof.
  intros st Hc Htext Hfmt.
  pose proof (process_throws filePath st message Htext Hfmt) as Hp.
  rewrite Hp. repeat (split; [reflexivity|]).
  destruct (run_files_exit d (pre ++ filePath :: post) out)
    as (r1 & st1 & Hr1 & Hst1 & _ & _ & He1).
  destruct (run_files_exit d (pre ++ post) out)
    as (r2 & st2 & Hr2 & Hst2 & _ & _ & He2).
  exists st1, st2, r1, r2.
  assert (tally st1 = tally st2) as Htally.
  { rewrite (apply_phase_returns P o _ d out Hc) in Hst1.
    rewrite (apply_phase_returns P o _ d out Hc) in Hst2.
    injection Hst1 as <-. injection Hst2 as <-.
    change (tally (process_all P o (pre ++ filePath :: post) (initial d out))
            = tally (process_all P o (pre ++ post) (initial d out))).
    rewrite !process_all_app. fold st. simpl. rewrite Hp.
    apply process_all_tally. reflexivity. }
  split; [exact Hst1|]. split; [exact Hst2|]. split; [exact Htally|].
  split.
  { rewrite (apply_phase_returns P o _ d out Hc) in Hst1. injection Hst1 as <-.
    cbn. rewrite process_all_app. fold st. simpl. rewrite Hp.
    destruct (process_all_console post (print (format_error filePath message) st))
      as (lines & ->).
    cbn. apply elem_of_app. left. apply elem_of_app. right. left. }
  split; [exact Hr1|]. split; [exact Hr2|].
  rewrite He1, He2.
  assert (filesChanged st1 = filesChanged st2) as -> by (injection Htally; auto).
  reflexivity.
Qed.

(** C10: a file that cannot be opened or read by the probe is skipped
    without a trace: the probe answers as it does for a binary file,
    nothing is printed, no counter moves, nothing is added to the list of
    changed files, and the phase ends in the state of the run without the
    file. *)
Theorem unreadable_file_is_skipped_silently (pre post : list string)
    (filePath : string) (d : gmap string file) (out : list output) :
  let st := process_all P o pre (initial d out) in
  unreadable (disk st) filePath ->
  isTextFile (disk st) filePath = false
  /\ process P o filePath st = st
  /\ process_all P o (pre ++ filePath :: post) (initial d out)
     = process_all P o (pre ++ post) (initial d out)
  /\ (forall st', binary (disk st') filePath ->
        isTextFile (disk st') filePath = false
        /\ process P o filePath st' = st').
Proof.
  intros st Hun.
  assert (isTextFile (disk st) filePath = false) as Htext.
  { unfold isTextFile. unfold unreadable in Hun.
    destruct (disk st !! filePath) as [f|]; [rewrite Hun|]; reflexivity. }
  split; [exact Htext|]. split; [apply process_skips, Htext|]. split.
  - rewrite !process_all_app. fold st. simpl.
    rewrite process_skips by exact Htext. reflexivity.
  - intros st' (f & Hf & Hprobe & Hnul).
    assert (isTextFile (disk st') filePath = false) as Hb
      by (unfold isTextFile; rewrite Hf, Hprobe, Hnul; reflexivity).
    split; [exact Hb | apply process_skips, Hb].
Qed.

(** C3, amended: an edit whose range does not lie within the original
    text does not make the application fail, and there is no condition
    for a malformed edit. Whenever the file is read and the language
    service returns edits, whatever their ranges, [formatFile] returns the
    text that [slice] produces with the offsets cut to the buffer (an
    edit that starts at or after the end appends its replacement), and
    the file is counted as checked. When [formatFile] does throw, the
    worker reports the error for that file and goes on: only the task of
    that file is given up. *)
Theorem out_of_range_edit_is_clamped (filePath : string) (st : state)
    (originalText : jsstring) (edits : option (list TextChange)) :
  isTextFile (disk st) filePath = true ->
  readFileSync P (disk st) (resolve P filePath) = Returns originalText ->
  getFormattingEditsForDocument P (resolve P (resolve P filePath)) originalText
  = Returns edits ->
  formatFile P (disk st) filePath
  = Returns (apply_edits edits originalText,
             bool_decide (apply_edits edits originalText <> originalText))
  /\ filesChecked (process P o filePath st) = S (filesChecked st)
  /\ (forall e result,
        Z.of_nat (Datatypes.length result) <= start (span e) ->
        0 <= length (span e) ->
        apply_edit e result = result ++ newText e)
  /\ (forall path st' message,
        isTextFile (disk st') path = true ->
        formatFile P (disk st') path = Throws message ->
        process P o path st' = print (format_error path message) st').
Proof.
  intros Htext Hread Hedits.
  assert (formatFile P (disk st) filePath
          = Returns (apply_edits edits originalText,
                     bool_decide (apply_edits edits originalText <> originalText)))
    as Hfmt.
  { unfold formatFile, format. rewrite Hread, Hedits. reflexivity. }
  split; [exact Hfmt|]. split.
  - unfold process, try_format. rewrite Htext, Hfmt.
    destruct (silent o), (dry o), (check o); reduce_state;
      repeat (case_match; reduce_state); reflexivity.
  - split.
    + intros e result Hstart Hlen. unfold apply_edit.
      rewrite FormatterFacts.slice_whole by exact Hstart.
      rewrite FormatterFacts.slice_beyond by lia.
      rewrite app_nil_r. reflexivity.
    + intros path st' message. apply process_throws.
Qed.

(** C8: applying an empty edit set returns the original text, the very
    same sequence of code units; so does a missing edit set; and
    [formatFile] then reports the file as unchanged. *)
Theorem empty_edit_set_is_identity (text : jsstring) :
  apply_edits (Some []) text = text
  /\ apply_edits None text = text
  /\ (forall (service : oracle) (fileName : string),
        service fileName text = Returns (Some []) ->
        format service fileName text = Returns text)
  /\ (forall (d : gmap string file) (filePath : string),
        readFileSync P d (resolve P filePath) = Returns text ->
        getFormattingEditsForDocument P (resolve P (resolve P filePath)) text
        = Returns (Some []) ->
        formatFile P d filePath = Returns (text, false)).
Proof.
  split; [reflexivity|]. split; [reflexivity|]. split.
  - intros service fileName Hs. unfold format. rewrite Hs. reflexivity.
  - intros d filePath Hread Hs. unfold formatFile, format. rewrite Hread, Hs.
    simpl. rewrite bool_decide_eq_false_2 by (intros H; apply H; reflexivity).
    reflexivity.
Qed.
End FileClaims.

End PipelineFacts.

(** ** The exit status *)

Module RunFacts.
Import Formatter Cli Pipeline WorkerFacts PipelineFacts.

Section Run.
Variable P : platform.

Lemma unknown_option_throws args o positional arg :
  startsWith_dash arg = true -> arg ∉ known_flags ->
  parseArgs_loop P (arg :: args) o positional = Throws ("Unknown option: " +:+ arg).
Proof.
  intros Hdash Hnew.
  assert (forall k, k ∈ known_flags -> String.eqb arg k = false) as Hk.
  { intros k Hin. apply String.eqb_neq. intros ->. exact (Hnew Hin). }
  simpl.
  rewrite !Hk by (unfold known_flags; set_solver).
  rewrite Hdash. reflexivity.
Qed.

Lemma bad_concurrency_throws args o positional next :
  truthy next = true -> positive_integer P next = false ->
  parseArgs_loop P ("--concurrency" :: next :: args) o positional
  = Throws "--concurrency must be a positive integer".
Proof.
  intros Hnext Hbad. unfold positive_integer in Hbad.
  cbn. rewrite Hnext.
  destruct (Number P next) as [n|]; [|reflexivity].
  destruct (Z.leb_spec n 0) as [_|?]; [reflexivity|].
  apply Z.ltb_ge in Hbad. lia.
Qed.

Lemma run_files_contract o d files out :
  exists r st,
    run_files P o d files out = Some r
    /\ pool r = Some st
    /\ ((dry o || check o)%bool = false -> exit_status r = 0)
    /\ ((dry o || check o)%bool = true ->
          (exit_status r <> 0 <-> (0 < filesChanged st)%nat)
          /\ (exit_status r = 0 \/ exit_status r = 1)).
Proof.
  destruct (run_files_exit P o d files out) as (r & st & Hr & _ & Hpool & _ & He).
  exists r, st. split; [exact Hr|]. split; [exact Hpool|].
  unfold exit_status. rewrite He.
  destruct (dry o || check o)%bool.
  - split; [discriminate|]. intros _.
    destruct (Nat.ltb_spec 0 (filesChanged st)); cbn; split; try tauto; try lia.
  - split; [reflexivity | discriminate].
Qed.
End Run.

End RunFacts.

(** ** The directory walk *)

Module WalkFacts.
Import Cli Sample.

(** For a file the exclude patterns are not consulted. *)
Lemma walk_entry_file includeMatcher excludeMatchers dir above name files :
  walk_entry includeMatcher excludeMatchers dir above (File name) files
  = if (includeMatcher (relative above name) || includeMatcher name)%bool
    then files ++ [join dir name] else files.
Proof. cbn. rewrite andb_false_r. reflexivity. Qed.

(** C2, on the code: a file that matches an exclude pattern by its name and
    by its path relative to the root is still collected when it matches the
    include pattern, at the top of the tree and two directories down; the
    exclude patterns change nothing for a directory that holds one file. *)
Theorem excluded_file_is_collected :
  excluded [minimatch node true (replace_backslashes "a.ts")] "a.ts" "a.ts" = true
  /\ excluded [minimatch node true (replace_backslashes "a.ts")] "src/deep/a.ts" "a.ts"
     = true
  /\ collectFiles node "/r" (Some [File "a.ts"]) "**/*.{ts,tsx,js}" ["a.ts"]
     = ["/r/a.ts"]
  /\ collectFiles node "/r" tree_deep "**/*.{ts,tsx,js}" ["a.ts"]
     = ["/r/a.ts"; "/r/src/deep/a.ts"]
  /\ forall (P : platform) (rootDir name includePattern : string)
       (excludePatterns : list string),
       collectFiles P rootDir (Some [File name]) includePattern excludePatterns
       = collectFiles P rootDir (Some [File name]) includePattern [].
Proof.
  repeat split; try (vm_compute; reflexivity).
  intros P rootDir name includePattern excludePatterns.
  unfold collectFiles, walk, walk_entries. cbn [foldl].
  rewrite !walk_entry_file. reflexivity.
Qed.

End WalkFacts.

(** ** The properties at concrete inputs *)

Module Runs.
Import Formatter Cli Pipeline Sample PipelineFacts RunFacts.

(** C3, as the specification states it, does not hold: the language service
    returns an edit of [ab] with the range from 5 to 6, which is not within
    the text; applying it does not fail: [format] returns [abX], and
    [formatFile] reports a changed file. *)
Lemma out_of_range_edit_does_not_fail :
  ~ in_bounds (str "ab") past_the_end
  /\ service "/r/a.ts" (str "ab") = Returns (Some [past_the_end])
  /\ format service "/r/a.ts" (str "ab") = Returns (str "abX")
  /\ formatFile node files_ab "/r/a.ts" = Returns (str "abX", true)
  /\ ~ exists message, format service "/r/a.ts" (str "ab") = Throws message.
Proof.
  split; [|split; [|split; [|split]]].
  - unfold in_bounds, stop. cbn. lia.
  - reflexivity.
  - reflexivity.
  - vm_compute. reflexivity.
  - intros (message & H). vm_compute in H. discriminate H.
Qed.

Lemma out_of_range_edit_is_clamped_witness :
  isTextFile files_ab "/r/a.ts" = true
  /\ formatFile node files_ab "/r/a.ts"
     = Returns (apply_edits (Some [past_the_end]) (str "ab"),
                bool_decide (apply_edits (Some [past_the_end]) (str "ab") <> str "ab")).
Proof.
  assert (isTextFile files_ab "/r/a.ts" = true) as Htext by (vm_compute; reflexivity).
  split; [exact Htext|].
  apply (out_of_range_edit_is_clamped node default_options "/r/a.ts"
           (initial files_ab []) (str "ab") (Some [past_the_end]) Htext);
    vm_compute; reflexivity.
Defined.

Lemma empty_edit_set_is_identity_witness :
  format (fun _ _ => Returns (Some [])) "/r/b.ts" (str "x = 1") = Returns (str "x = 1").
Proof.
  apply (empty_edit_set_is_identity node (str "x = 1")). reflexivity.
Defined.

Lemma every_file_claimed_once_witness :
  1 <= concurrency default_options
  /\ exists st,
       apply_phase node default_options ["/r/a.ts"; "/r/b.ts"] files_of_r [] = Some st
       /\ map snd (claimed st) = [0%nat; 1%nat].
Proof.
  assert (1 <= concurrency default_options) as Hc by (cbn; lia).
  split; [exact Hc|].
  destruct (every_file_claimed_once node default_options ["/r/a.ts"; "/r/b.ts"]
              files_of_r [] Hc) as (st & Hrun & Hclaims & _).
  exists st. split; [exact Hrun | exact Hclaims].
Defined.

Lemma concurrency_is_unobservable_witness :
  1 <= 1 /\ 1 <= 8
  /\ exists st1 st2,
       apply_phase node (set_concurrency 1 default_options)
         ["/r/a.ts"; "/r/b.ts"] files_of_r [] = Some st1
       /\ apply_phase node (set_concurrency 8 default_options)
            ["/r/a.ts"; "/r/b.ts"] files_of_r [] = Some st2
       /\ changedFiles st1 = changedFiles st2.
Proof.
  assert (1 <= 1) as H1 by lia. assert (1 <= 8) as H8 by lia.
  split; [exact H1|]. split; [exact H8|].
  destruct (concurrency_is_unobservable node default_options
              ["/r/a.ts"; "/r/b.ts"] files_of_r [] 1 8 H1 H8)
    as (st1 & st2 & Hr1 & Hr2 & _ & _ & Hch & _).
  exists st1, st2. repeat split; assumption.
Defined.

Lemma read_only_modes_agree_witness :
  isTextFile files_of_r "/r/a.ts" = true
  /\ formatFile node files_of_r "/r/a.ts" = Returns (str "x = 1", true)
  /\ disk (process node default_options "/r/a.ts" (initial files_of_r []))
     = <["/r/a.ts" := mkFile (encode (str "x = 1")) false None None]> files_of_r.
Proof.
  assert (isTextFile files_of_r "/r/a.ts" = true) as Htext by (vm_compute; reflexivity).
  assert (formatFile node files_of_r "/r/a.ts" = Returns (str "x = 1", true)) as Hfmt
    by (vm_compute; reflexivity).
  split; [exact Htext|]. split; [exact Hfmt|].
  destruct (read_only_modes_agree node default_options ["/r/a.ts"; "/r/b.ts"]
              files_of_r [])
    as (stD & stC & _ & _ & _ & _ & _ & _ & _ & _ & _ & Hwrite).
  apply (Hwrite default_options "/r/a.ts" (initial files_of_r []) (str "x = 1")
           (plain "x=1")); try reflexivity; assumption.
Defined.

Lemma failed_file_is_reported_and_skipped_witness :
  1 <= concurrency default_options
  /\ isTextFile
       (disk (process_all node default_options ["/r/a.ts"] (initial files_boom [])))
       "/r/bad.ts" = true
  /\ formatFile node
       (disk (process_all node default_options ["/r/a.ts"] (initial files_boom [])))
       "/r/bad.ts" = Throws "Debug Failure."
  /\ filesChecked
       (process node default_options "/r/bad.ts"
          (process_all node default_options ["/r/a.ts"] (initial files_boom [])))
     = filesChecked
         (process_all node default_options ["/r/a.ts"] (initial files_boom [])).
Proof.
  assert (1 <= concurrency default_options) as Hc by (cbn; lia).
  assert (isTextFile
            (disk (process_all node default_options ["/r/a.ts"] (initial files_boom [])))
            "/r/bad.ts" = true) as Htext by (vm_compute; reflexivity).
  assert (formatFile node
            (disk (process_all node default_options ["/r/a.ts"] (initial files_boom [])))
            "/r/bad.ts" = Throws "Debug Failure.") as Hfmt by (vm_compute; reflexivity).
  split; [exact Hc|]. split; [exact Htext|]. split; [exact Hfmt|].
  apply (failed_file_is_reported_and_skipped node default_options
           ["/r/a.ts"] ["/r/b.ts"] "/r/bad.ts" "Debug Failure." files_boom []
           Hc Htext Hfmt).
Defined.

Lemma unreadable_file_is_skipped_silently_witness :
  unreadable
    (disk (process_all node default_options ["/r/a.ts"] (initial files_of_r [])))
    "/r/gone.ts"
  /\ process_all node default_options ["/r/a.ts"; "/r/gone.ts"; "/r/b.ts"]
       (initial files_of_r [])
     = process_all node default_options ["/r/a.ts"; "/r/b.ts"] (initial files_of_r []).
Proof.
  assert (unreadable
            (disk (process_all node default_options ["/r/a.ts"] (initial files_of_r [])))
            "/r/gone.ts") as Hun by (vm_compute; exact I).
  split; [exact Hun|].
  apply (unreadable_file_is_skipped_silently node default_options
           ["/r/a.ts"] ["/r/b.ts"] "/r/gone.ts" files_of_r [] Hun).
Defined.

(** The scenario of the specification: [a.ts] needs one reformatting,
    [b.ts] is formatted, [node_modules/c.ts] is excluded by default. *)
Example check_scenario :
  option_map
    (fun r => (exit_status r, stored r,
               option_map (fun st => (filesChecked st, filesChanged st, changedFiles st))
                 (pool r)))
    (run node fs_r ["node"; "format-ts"; "/r"; "--check"])
  = Some (1, files_of_r, Some (2%nat, 1%nat, ["/r/a.ts"])).
Proof. vm_compute. reflexivity. Qed.

Example write_scenario :
  option_map
    (fun r => (exit_status r, stored r !! "/r/a.ts", stored r !! "/r/b.ts",
               option_map (fun st => (filesChecked st, filesChanged st, changedFiles st))
                 (pool r)))
    (run node fs_r ["node"; "format-ts"; "/r"])
  = Some (0, Some (plain "x = 1"), Some (plain "x = 1"),
          Some (2%nat, 1%nat, ["/r/a.ts"])).
Proof. vm_compute. reflexivity. Qed.

(** Usage errors: an unknown flag, no target, a target that does not
    exist. Each ends with exit status 2 and without a pool. *)
Example usage_errors :
  map (fun argv =>
         option_map (fun r => (exit_status r, pool r, stored r))
           (run node fs_r argv))
    [ ["node"; "format-ts"; "/r"; "--bogus"];
      ["node"; "format-ts"; "--silent"];
      ["node"; "format-ts"; "/nowhere"] ]
  = [ Some (2, None, files_of_r); Some (2, None, files_of_r);
      Some (2, None, files_of_r) ].
Proof. vm_compute. reflexivity. Qed.

End Runs.

(** ** Further properties: the arguments *)

Module ParseFacts.
Import Cli Pipeline StringNotions.

(** *** [split], [trim] and the list of exclude patterns *)

Lemma split_on_pieces sep s :
  Forall (fun piece => occurs sep piece = false) (split_on sep s).
Proof.
  induction s as [|c rest IH]; simpl.
  - repeat constructor.
  - destruct (Ascii.eqb c sep) eqn:Hc.
    + constructor; [reflexivity | exact IH].
    + destruct (split_on sep rest) as [|piece pieces].
      * repeat constructor. simpl. rewrite Hc. reflexivity.
      * inversion IH as [|? ? Hpiece Hpieces]; subst.
        constructor; [|exact Hpieces]. simpl. rewrite Hc. exact Hpiece.
Qed.

Lemma trim_start_occurs c s : occurs c s = false -> occurs c (trim_start s) = false.
Proof.
  induction s as [|c' rest IH]; simpl; [auto|].
  intros H. apply orb_false_elim in H as [Hc Hrest].
  destruct (is_space c'); [apply IH, Hrest|].
  simpl. rewrite Hc, Hrest. reflexivity.
Qed.

Lemma trim_end_occurs c s : occurs c s = false -> occurs c (trim_end s) = false.
Proof.
  induction s as [|c' rest IH]; simpl; [auto|].
  intros H. apply orb_false_elim in H as [Hc Hrest].
  specialize (IH Hrest).
  destruct (trim_end rest) as [|k kept].
  - destruct (is_space c'); simpl; [reflexivity|]. rewrite Hc. reflexivity.
  - simpl. rewrite Hc. exact IH.
Qed.

(** What [trim_start] returns does not start with white space. *)
Lemma trim_start_head s :
  match trim_start s with
  | EmptyString => True
  | String c _ => is_space c = false
  end.
Proof.
  induction s as [|c rest IH]; simpl; [exact I|].
  destruct (is_space c) eqn:Hc; [exact IH|]. exact Hc.
Qed.

Lemma trim_end_head s :
  match s with
  | EmptyString => True
  | String c _ => is_space c = false
  end ->
  match trim_end s with
  | EmptyString => True
  | String c _ => is_space c = false
  end.
Proof.
  destruct s as [|c rest]; simpl; [auto|]. intros Hc.
  destruct (trim_end rest); [rewrite Hc|]; exact Hc.
Qed.

Lemma trim_start_fixed s :
  match s with
  | EmptyString => True
  | String c _ => is_space c = false
  end -> trim_start s = s.
Proof. destruct s as [|c rest]; simpl; [auto|]. intros ->. reflexivity. Qed.

Lemma trim_end_idempotent s : trim_end (trim_end s) = trim_end s.
Proof.
  induction s as [|c rest IH]; simpl; [reflexivity|].
  destruct (trim_end rest) as [|k kept] eqn:Hrest.
  - destruct (is_space c) eqn:Hc; simpl; [reflexivity|]. rewrite Hc. reflexivity.
  - simpl in *. rewrite IH. reflexivity.
Qed.

Lemma trim_idempotent s : trim (trim s) = trim s.
Proof.
  unfold trim.
  rewrite (trim_start_fixed (trim_end (trim_start s)))
    by (apply trim_end_head, trim_start_head).
  apply trim_end_idempotent.
Qed.

(** X3: every pattern that [--exclude] stores is clean: the empty pieces
    are dropped, a piece holds no comma, and the white space around it is
    gone (trimming it again changes nothing). *)
Theorem split_exclude_clean (next : string) : Forall clean (split_exclude next).
Proof.
  unfold split_exclude.
  pose proof (split_on_pieces "," next) as Hpieces.
  induction (split_on "," next) as [|piece pieces IH]; simpl; [constructor|].
  inversion Hpieces as [|? ? Hpiece Hrest]; subst.
  destruct (truthy (trim piece)) eqn:Htruthy; [|apply IH, Hrest].
  constructor; [|apply IH, Hrest].
  split; [exact Htruthy|]. split; [|apply trim_idempotent].
  apply trim_end_occurs, trim_start_occurs, Hpiece.
Qed.

(** *** Invariants of the options *)

Section Invariant.
Variable P : platform.
Variable I : options -> Prop.
Hypothesis keep_dir : forall o v, truthy v = true -> I o -> I (set_dir v o).
Hypothesis keep_include : forall o v, truthy v = true -> I o -> I (set_include v o).
Hypothesis keep_exclude : forall o v, I o -> I (set_exclude (split_exclude v) o).
Hypothesis keep_concurrency : forall o n, 0 < n -> I o -> I (set_concurrency n o).
Hypothesis keep_dry : forall o, I o -> I (set_dry o).
Hypothesis keep_check : forall o, I o -> I (set_check o).
Hypothesis keep_silent : forall o, I o -> I (set_silent o).

(** A property of the options that every assignment of the loop keeps holds
    for the options that [parseArgs] returns. *)
Lemma parseArgs_loop_keeps : forall n args o positional p,
  (Datatypes.length args <= n)%nat -> I o ->
  parseArgs_loop P args o positional = Returns p -> I (parsed_options p).
Proof.
  induction n as [|n IH]; intros args o positional p Hlen Ho Hp.
  - destruct args; [|simpl in Hlen; lia]. simpl in Hp. injection Hp as <-. exact Ho.
  - destruct args as [|arg rest]; [simpl in Hp; injection Hp as <-; exact Ho|].
    simpl in Hlen, Hp.
    repeat match type of Hp with
           | (if ?b then _ else _) = _ => destruct b eqn:?
           | match ?l with [] => _ | _ :: _ => _ end = _ => destruct l
           | match Number P ?s with _ => _ end = _ => destruct (Number P s)
           end;
      try discriminate Hp;
      try (injection Hp as <-; exact Ho);
      simpl in Hlen;
      (eapply IH; [| |exact Hp]; [lia|]); auto.
    apply keep_concurrency; [|exact Ho].
    match goal with H : (_ <=? 0) = false |- _ => apply Z.leb_gt in H; exact H end.
Qed.
End Invariant.

(** X1: in the options that [parseArgs] returns the concurrency is a
    positive integer, so the fallback to the number of CPUs and to 4 is never
    taken: the pool has exactly [options.concurrency] workers. *)
Theorem parsed_concurrency_positive (P : platform) (argv : list string) (p : parsed) :
  parseArgs P argv = Returns p ->
  1 <= concurrency (parsed_options p)
  /\ pool_size P (parsed_options p) = concurrency (parsed_options p).
Proof.
  intros Hp.
  assert (1 <= concurrency (parsed_options p)) as Hc.
  { unfold parseArgs in Hp.
    eapply (parseArgs_loop_keeps P (fun o => 1 <= concurrency o));
      [..|exact Hp]; try (intros; assumption); try reflexivity.
    - intros o n Hn _. cbn. lia.
    - cbn. lia. }
  split; [exact Hc|]. unfold pool_size.
  destruct (Z.eqb_spec (concurrency (parsed_options p)) 0); [lia|reflexivity].
Qed.

(** X2: in the options that [parseArgs] returns, the include pattern and
    the target of [--dir] are never the empty string, and every exclude
    pattern is clean. *)
Theorem parsed_options_well_formed (P : platform) (argv : list string) (p : parsed) :
  parseArgs P argv = Returns p ->
  truthy (include (parsed_options p)) = true
  /\ (forall target, dir (parsed_options p) = Some target -> truthy target = true)
  /\ Forall clean (exclude (parsed_options p)).
Proof.
  intros Hp. unfold parseArgs in Hp.
  eapply (parseArgs_loop_keeps P
            (fun o => truthy (include o) = true
                      /\ (forall target, dir o = Some target -> truthy target = true)
                      /\ Forall clean (exclude o)));
    [..|exact Hp]; try (intros; assumption); try reflexivity.
  - intros o v Hv (Hi & Hd & He). cbn. repeat split; try assumption.
    intros target [= <-]. exact Hv.
  - intros o v Hv (Hi & Hd & He). cbn. repeat split; assumption.
  - intros o v (Hi & Hd & He). cbn. repeat split; try assumption.
    apply split_exclude_clean.
  - cbn. split; [reflexivity|]. split; [discriminate|].
    repeat constructor.
Qed.

End ParseFacts.

(** ** Further properties: patterns and the binary probe *)

Module ProbeFacts.
Import Cli Pipeline StringNotions.

(** X4: [collectFiles] hands no backslash to minimatch: in an exclude
    pattern every run of backslashes has become one slash, and a pattern
    without a backslash is passed on as it is. *)
Theorem replace_backslashes_none_left (pattern : string) :
  occurs "\" (replace_backslashes pattern) = false
  /\ (occurs "\" pattern = false -> replace_backslashes pattern = pattern).
Proof.
  induction pattern as [|c rest [IHnone IHsame]]; [split; reflexivity|].
  split.
  - simpl. destruct (Ascii.eqb c "\") eqn:Hc.
    + destruct rest as [|c' rest']; [reflexivity|].
      destruct (Ascii.eqb c' "\") eqn:Hc'; [exact IHnone|].
      change (occurs "\" (String "/" (replace_backslashes (String c' rest'))) = false).
      simpl occurs at 1. exact IHnone.
    + change (occurs "\" (String c (replace_backslashes rest)) = false).
      simpl occurs at 1. rewrite Hc. exact IHnone.
  - simpl. intros H. apply orb_false_elim in H as [Hc Hrest].
    rewrite Hc. rewrite (IHsame Hrest). reflexivity.
Qed.

Lemma replace_backslashes_none_left_witness :
  occurs "\" "src/lib" = false /\ replace_backslashes "src/lib" = "src/lib".
Proof.
  split; [reflexivity|].
  apply (replace_backslashes_none_left "src/lib"). reflexivity.
Defined.

Lemma existsb_is_nul_false (bs : list byte) :
  existsb is_nul bs = false <-> forall i b, bs !! i = Some b -> b <> x00.
Proof.
  induction bs as [|b0 rest IH]; simpl.
  - split; [intros _ i b H; discriminate H | reflexivity].
  - rewrite orb_false_iff, IH. split.
    + intros [Hb Hrest] [|i] b H; simpl in H.
      * injection H as <-. apply Byte.eqb_false, Hb.
      * eapply Hrest, H.
    + intros H. split.
      * destruct (is_nul b0) eqn:Hb; [|reflexivity].
        apply Byte.byte_dec_bl in Hb. exfalso. exact (H 0%nat b0 eq_refl Hb).
      * intros i b Hi. exact (H (S i) b Hi).
Qed.

(** X5: [isTextFile] answers true exactly for a file that exists, that the
    probe can open and read, and whose first 1024 bytes hold no zero byte.
    A zero byte at offset 1024 or later is not seen. *)
Theorem isTextFile_spec (d : gmap string file) (filePath : string) :
  isTextFile d filePath = true
  <-> exists f, d !! filePath = Some f /\ probe_fails f = false
                /\ forall i b, (i < 1024)%nat -> bytes f !! i = Some b -> b <> x00.
Proof.
  unfold isTextFile. destruct (d !! filePath) as [f|]; [|split].
  - destruct (probe_fails f) eqn:Hprobe.
    + split; [discriminate|]. intros (f' & [= <-] & Hp & _). congruence.
    + rewrite negb_true_iff, existsb_is_nul_false. split.
      * intros H. exists f. split; [reflexivity|]. split; [exact Hprobe|].
        intros i b Hi Hb. apply (H i b). rewrite lookup_take_lt by exact Hi. exact Hb.
      * intros (f' & [= <-] & _ & H) i b Hb.
        destruct (decide (i < 1024)%nat) as [Hi|Hi].
        -- rewrite lookup_take_lt in Hb by exact Hi. exact (H i b Hi Hb).
        -- rewrite lookup_take_ge in Hb by lia. discriminate Hb.
  - discriminate.
  - intros (f & H & _). discriminate H.
Qed.

End ProbeFacts.

(** ** Further properties: the directory walk *)

Module TraversalFacts.
Import Cli Pipeline WalkNotions.

(** Induction on a tree of directory entries. *)
Lemma dirent_tree_ind (Q : dirent -> Prop) :
  (forall name, Q (File name)) ->
  (forall name, Q (Other name)) ->
  (forall name, Q (Directory name None)) ->
  (forall name entries, Forall Q entries -> Q (Directory name (Some entries))) ->
  forall entry, Q entry.
Proof.
  intros HF HO HN HD. fix IH 1. intros [name|name [entries|]|name].
  - apply HF.
  - apply HD. revert entries. fix IHentries 1. intros [|e rest].
    + constructor.
    + constructor; [apply IH | apply IHentries].
  - apply HN.
  - apply HO.
Qed.

Section Walk.
Variable includeMatcher : string -> bool.
Variable excludeMatchers : list (string -> bool).

Local Abbreviation walk_entry := (walk_entry includeMatcher excludeMatchers).
Local Abbreviation walk_entries := (walk_entries includeMatcher excludeMatchers).
Local Abbreviation walk := (walk includeMatcher excludeMatchers).

(** The loop over the listing of a directory, as [walk_entry] carries it,
    is [walk_entries]. *)
Lemma walk_entry_directory dir above name listing files :
  walk_entry dir above (Directory name listing) files
  = if excluded excludeMatchers (relative above name) name then files
    else walk (join dir name) (above ++ [name]) listing files.
Proof.
  cbn. rewrite andb_true_r.
  destruct (excluded excludeMatchers (relative above name) name); [reflexivity|].
  destruct listing as [entries|]; [|reflexivity].
  unfold Cli.walk, Cli.walk_entries.
  revert files. induction entries as [|e rest IH]; intros files; [reflexivity|].
  simpl. apply IH.
Qed.

Lemma walk_entry_other dir above name files :
  walk_entry dir above (Other name) files = files.
Proof. cbn. rewrite andb_false_r. reflexivity. Qed.

Lemma walk_entries_cons dir above e rest files :
  walk_entries dir above (e :: rest) files
  = walk_entries dir above rest (walk_entry dir above e files).
Proof. reflexivity. Qed.

(** [walk] only appends to the array it is given. *)
Lemma walk_entry_appends entry : forall dir above files,
  walk_entry dir above entry files = files ++ walk_entry dir above entry [].
Proof.
  induction entry as [name|name|name|name entries IH] using dirent_tree_ind;
    intros dir above files.
  - rewrite !WalkFacts.walk_entry_file.
    destruct (includeMatcher (relative above name) || includeMatcher name)%bool;
      [reflexivity | symmetry; apply app_nil_r].
  - rewrite !walk_entry_other. symmetry. apply app_nil_r.
  - rewrite !walk_entry_directory.
    destruct (excluded _ _ _); symmetry; apply app_nil_r.
  - rewrite !walk_entry_directory.
    destruct (excluded _ _ _); [symmetry; apply app_nil_r|].
    unfold Cli.walk. generalize (join dir name) (above ++ [name]).
    intros dir' above'. revert files.
    induction IH as [|e rest He _ IHrest]; intros files.
    + symmetry. apply app_nil_r.
    + rewrite !walk_entries_cons.
      rewrite IHrest, (IHrest (walk_entry dir' above' e [])).
      rewrite (He dir' above' files), <- app_assoc. reflexivity.
Qed.

Lemma walk_entries_appends dir above entries : forall files,
  walk_entries dir above entries files = files ++ walk_entries dir above entries [].
Proof.
  induction entries as [|e rest IH]; intros files.
  - symmetry. apply app_nil_r.
  - rewrite !walk_entries_cons.
    rewrite IH, (IH (walk_entry dir above e [])).
    rewrite (walk_entry_appends e dir above files), <- app_assoc. reflexivity.
Qed.

Lemma walk_entries_app dir above first second :
  walk_entries dir above (first ++ second) []
  = walk_entries dir above first [] ++ walk_entries dir above second [].
Proof.
  unfold Cli.walk_entries. rewrite foldl_app.
  apply (walk_entries_appends dir above second).
Qed.

Lemma walk_entries_elem dir above entries p :
  p ∈ walk_entries dir above entries []
  <-> exists e, e ∈ entries /\ p ∈ walk_entry dir above e [].
Proof.
  induction entries as [|e rest IH].
  - split; [intros H; inversion H | intros (e & H & _); inversion H].
  - rewrite walk_entries_cons, walk_entries_appends, elem_of_app, IH. split.
    + intros [H|(e' & He' & H)].
      * exists e. split; [left|exact H].
      * exists e'. split; [right; exact He'|exact H].
    + intros (e' & He' & H). apply elem_of_cons in He' as [->|He'].
      * left. exact H.
      * right. exists e'. split; assumption.
Qed.

Lemma reachable_entries dir above entries p rel name :
  reachable excludeMatchers dir above entries p rel name
  <-> exists e, e ∈ entries /\ reachable excludeMatchers dir above [e] p rel name.
Proof.
  split.
  - intros H. inversion H as [? ? ? ? Hin|? ? ? sub listing ? ? ? Hin Hex Hsub]; subst.
    + exists (File name). split; [exact Hin|]. constructor. left.
    + exists (Directory sub (Some listing)). split; [exact Hin|].
      eapply reachable_below; [left|exact Hex|exact Hsub].
  - intros (e & He & H).
    inversion H as [? ? ? ? Hin|? ? ? sub listing ? ? ? Hin Hex Hsub]; subst.
    + apply list_elem_of_singleton in Hin as <-. constructor. exact He.
    + apply list_elem_of_singleton in Hin as <-.
      eapply reachable_below; [exact He|exact Hex|exact Hsub].
Qed.

Lemma walk_entry_reaches entry : forall dir above p,
  p ∈ walk_entry dir above entry []
  <-> exists rel name,
        reachable excludeMatchers dir above [entry] p rel name
        /\ (includeMatcher rel || includeMatcher name)%bool = true.
Proof.
  induction entry as [name|name|name|name entries IH] using dirent_tree_ind;
    intros dir above p.
  - rewrite WalkFacts.walk_entry_file. split.
    + destruct (includeMatcher (relative above name) || includeMatcher name)%bool eqn:Hinc;
        [|intros H; inversion H].
      intros H. apply list_elem_of_singleton in H as ->.
      exists (relative above name), name. split; [|exact Hinc]. constructor. left.
    + intros (rel & nm & H & Hinc).
      inversion H as [? ? ? ? Hin|? ? ? sub listing ? ? ? Hin]; subst.
      * apply list_elem_of_singleton in Hin. injection Hin as ->.
        rewrite Hinc. left.
      * apply list_elem_of_singleton in Hin. discriminate Hin.
  - rewrite walk_entry_other. split; [intros H; inversion H|].
    intros (rel & nm & H & _).
    inversion H as [? ? ? ? Hin|? ? ? sub listing ? ? ? Hin]; subst;
      apply list_elem_of_singleton in Hin; discriminate Hin.
  - rewrite walk_entry_directory.
    assert (p ∈ @nil string <-> False) as Hnil by (split; [intros H; inversion H|tauto]).
    destruct (excluded _ _ _); simpl; rewrite Hnil; (split; [tauto|]);
      intros (rel & nm & H & _);
      inversion H as [? ? ? ? Hin|? ? ? sub listing ? ? ? Hin]; subst;
      apply list_elem_of_singleton in Hin; discriminate Hin.
  - rewrite walk_entry_directory.
    destruct (excluded excludeMatchers (relative above name) name) eqn:Hex.
    + split; [intros H; inversion H|].
      intros (rel & nm & H & _).
      inversion H as [? ? ? ? Hin|? ? ? sub listing ? ? ? Hin Hex' Hsub]; subst;
        apply list_elem_of_singleton in Hin; [discriminate Hin|].
      injection Hin as <- <-. congruence.
    + unfold Cli.walk. rewrite walk_entries_elem. split.
      * intros (e & He & Hp).
        rewrite Forall_forall in IH. apply (IH e He) in Hp as (rel & nm & Hr & Hinc).
        exists rel, nm. split; [|exact Hinc].
        eapply reachable_below; [left|exact Hex|].
        apply reachable_entries. exists e. split; assumption.
      * intros (rel & nm & H & Hinc).
        inversion H as [? ? ? ? Hin|? ? ? sub listing ? ? ? Hin Hex' Hsub]; subst;
          apply list_elem_of_singleton in Hin; [discriminate Hin|].
        injection Hin as <- <-.
        apply reachable_entries in Hsub as (e & He & Hr).
        exists e. split; [exact He|].
        rewrite Forall_forall in IH. apply (IH e He). exists rel, nm. split; assumption.
Qed.
End Walk.

Section Collect.
Variable P : platform.
Variable rootDir includePattern : string.
Variable excludePatterns : list string.

(** X6: [collectFiles] returns exactly the files that can be reached from
    the root through directories that can be read and that no exclude
    pattern matches (by relative path or by name), and whose relative path
    or name matches the include pattern. Nothing below an excluded or
    unreadable directory is returned, and nothing that is not a file. *)
Theorem collectFiles_spec (entries : list dirent) (p : string) :
  p ∈ collectFiles P rootDir (Some entries) includePattern excludePatterns
  <-> exists rel name,
        reachable
          (map (fun pattern => minimatch P true (replace_backslashes pattern))
             excludePatterns)
          rootDir [] entries p rel name
        /\ (minimatch P false includePattern rel
            || minimatch P false includePattern name)%bool = true.
Proof.
  unfold collectFiles, walk. rewrite walk_entries_elem. split.
  - intros (e & He & Hp). apply walk_entry_reaches in Hp as (rel & name & Hr & Hinc).
    exists rel, name. split; [|exact Hinc].
    apply reachable_entries. exists e. split; assumption.
  - intros (rel & name & Hr & Hinc).
    apply reachable_entries in Hr as (e & He & Hr).
    exists e. split; [exact He|]. apply walk_entry_reaches.
    exists rel, name. split; assumption.
Qed.

(** X7: the walk is taken entry by entry, in the order of the listing: the
    files collected from a listing are those of its first part followed by
    those of the rest. *)
Theorem collectFiles_app (first second : list dirent) :
  collectFiles P rootDir (Some (first ++ second)) includePattern excludePatterns
  = collectFiles P rootDir (Some first) includePattern excludePatterns
    ++ collectFiles P rootDir (Some second) includePattern excludePatterns.
Proof. unfold collectFiles, walk. apply walk_entries_app. Qed.

(** X8: a directory that an exclude pattern matches, by its name or by its
    relative path, and a directory that cannot be read count for nothing:
    the result is the one for the listing without that directory, whatever
    the directory holds. An unreadable root gives no file. *)
Theorem pruned_directory_adds_nothing (before after : list dirent) (name : string)
    (listing : option (list dirent)) :
  excluded
    (map (fun pattern => minimatch P true (replace_backslashes pattern))
       excludePatterns)
    (relative [] name) name = true
  \/ listing = None ->
  collectFiles P rootDir (Some (before ++ Directory name listing :: after))
    includePattern excludePatterns
  = collectFiles P rootDir (Some (before ++ after)) includePattern excludePatterns
  /\ collectFiles P rootDir None includePattern excludePatterns = [].
Proof.
  intros Hpruned. split; [|reflexivity].
  rewrite !collectFiles_app. f_equal.
  change (Directory name listing :: after) with ([Directory name listing] ++ after).
  rewrite collectFiles_app.
  assert (collectFiles P rootDir (Some [Directory name listing]) includePattern
            excludePatterns = []) as ->; [|reflexivity].
  unfold collectFiles, walk, walk_entries. cbn [foldl].
  rewrite walk_entry_directory.
  destruct Hpruned as [Hex| ->].
  - rewrite Hex. reflexivity.
  - destruct (excluded _ _ _); reflexivity.
Qed.
End Collect.

End TraversalFacts.

(** ** Further properties: the edit applier *)

Module EditFacts.
Import Formatter EditNotions FormatterFacts.

Lemma ascending_from_nonneg original cursor edits :
  0 <= cursor -> ascending_from original cursor edits ->
  0 <= Z.of_nat (Datatypes.length original) - cursor.
Proof. intros _ H. apply ascending_from_bound in H. lia. Qed.

Lemma splice_from_length original edits : forall cursor,
  0 <= cursor -> ascending_from original cursor edits ->
  Z.of_nat (Datatypes.length (splice_from original cursor edits))
  = Z.of_nat (Datatypes.length original) - cursor + net_growth edits.
Proof.
  induction edits as [|e rest IH]; intros cursor Hc Hasc.
  - simpl in *. rewrite slice_suffix by lia. rewrite length_drop. lia.
  - destruct Hasc as (H1 & H2 & H3).
    pose proof (ascending_from_bound _ _ _ H3) as Hstop.
    assert (0 <= stop e) as Hstop0 by (unfold stop; lia).
    simpl. rewrite !length_app, !Nat2Z.inj_add.
    rewrite (IH (stop e) Hstop0 H3).
    rewrite slice_between by (unfold stop in *; lia).
    rewrite length_take, length_drop. unfold stop in *. lia.
Qed.

(** X9: for edits in ascending order and in bounds, the length of the
    result is the length of the original plus, for each edit, the length of
    its replacement minus the length of its range. *)
Theorem apply_length (original : jsstring) (edits : list TextChange) :
  ascending_from original 0 edits ->
  Z.of_nat (Datatypes.length (apply_back_to_front edits original))
  = Z.of_nat (Datatypes.length original) + net_growth edits.
Proof.
  intros Hasc.
  rewrite (back_to_front_splice original edits 0 ltac:(lia) Hasc).
  simpl. rewrite (splice_from_length original edits 0 ltac:(lia) Hasc). lia.
Qed.

(** X10: no edit moves or changes what lies before it: the text up to the
    start of the first edit of an ascending edit set is the same after the
    application. *)
Theorem apply_keeps_prefix (original : jsstring) (edits : list TextChange)
    (cursor : Z) :
  0 <= cursor -> ascending_from original cursor edits ->
  take (Z.to_nat cursor) (apply_back_to_front edits original)
  = take (Z.to_nat cursor) original.
Proof.
  intros Hc Hasc.
  pose proof (ascending_from_bound _ _ _ Hasc) as Hbound.
  rewrite (back_to_front_splice original edits cursor Hc Hasc).
  apply take_app_length'. rewrite length_take_le; lia.
Qed.

Lemma ascending_from_extend head tail edits : forall cursor,
  ascending_from head cursor edits -> ascending_from (head ++ tail) cursor edits.
Proof.
  induction edits as [|e rest IH]; simpl; intros cursor H.
  - rewrite length_app. lia.
  - destruct H as (H1 & H2 & H3). repeat split; try assumption. apply IH, H3.
Qed.

Lemma splice_from_extend head tail edits : forall cursor,
  0 <= cursor -> ascending_from head cursor edits ->
  splice_from (head ++ tail) cursor edits = splice_from head cursor edits ++ tail.
Proof.
  induction edits as [|e rest IH]; intros cursor Hc Hasc.
  - simpl in *.
    rewrite !slice_suffix by (rewrite ?length_app; lia).
    apply drop_app_le. lia.
  - destruct Hasc as (H1 & H2 & H3).
    pose proof (ascending_from_bound _ _ _ H3) as Hstop.
    assert (0 <= stop e) as Hstop0 by (unfold stop; lia).
    simpl. rewrite (IH (stop e) Hstop0 H3).
    rewrite !slice_between by (rewrite ?length_app; unfold stop in *; lia).
    rewrite drop_app_le by (unfold stop in *; lia).
    rewrite take_app_le by (rewrite length_drop; unfold stop in *; lia).
    rewrite <- !app_assoc. reflexivity.
Qed.

(** X11: the edits act where their ranges are and nowhere else: text that
    follows the part of the buffer that the edits lie in comes out as it
    went in, right after the edited part. *)
Theorem apply_keeps_suffix (head tail : jsstring) (edits : list TextChange) :
  ascending_from head 0 edits ->
  apply_back_to_front edits (head ++ tail)
  = apply_back_to_front edits head ++ tail.
Proof.
  intros Hasc.
  rewrite (back_to_front_splice (head ++ tail) edits 0 ltac:(lia)
             (ascending_from_extend head tail edits 0 Hasc)).
  rewrite (back_to_front_splice head edits 0 ltac:(lia) Hasc).
  simpl. apply splice_from_extend; [lia|exact Hasc].
Qed.

Lemma splice_in_place original edits : forall cursor,
  0 <= cursor -> ascending_from original cursor edits ->
  Forall (in_place original) edits ->
  take (Z.to_nat cursor) original ++ splice_from original cursor edits = original.
Proof.
  induction edits as [|e rest IH]; intros cursor Hc Hasc Hin.
  - simpl in *. rewrite slice_suffix by lia. apply take_drop.
  - destruct Hasc as (H1 & H2 & H3).
    pose proof (ascending_from_bound _ _ _ H3) as Hstop.
    assert (0 <= stop e) as Hstop0 by (unfold stop; lia).
    inversion Hin as [|? ? He Hrest]; subst.
    simpl. rewrite He.
    rewrite !slice_between by (unfold stop in *; lia).
    rewrite (app_assoc (take (Z.to_nat cursor) original)), take_take_drop.
    replace (Z.to_nat cursor + Z.to_nat (start (span e) - cursor))%nat
      with (Z.to_nat (start (span e))) by lia.
    rewrite (app_assoc (take (Z.to_nat (start (span e))) original)), take_take_drop.
    replace (Z.to_nat (start (span e)) + Z.to_nat (stop e - start (span e)))%nat
      with (Z.to_nat (stop e)) by (unfold stop in *; lia).
    apply (IH (stop e) Hstop0 H3 Hrest).
Qed.

(** X12: edits that replace each range by the text it already holds change
    nothing: the result is the original, and a language service that
    answers with such edits makes [format] return the text it was given. *)
Theorem in_place_edits_change_nothing (original : jsstring)
    (edits : list TextChange) :
  ascending_from original 0 edits ->
  Forall (in_place original) edits ->
  apply_edits (Some edits) original = original
  /\ forall (service : oracle) (fileName : string),
       service fileName original = Returns (Some edits) ->
       format service fileName original = Returns original.
Proof.
  intros Hasc Hin.
  assert (apply_edits (Some edits) original = original) as Heq.
  { destruct edits as [|e rest]; [reflexivity|].
    unfold apply_edits.
    rewrite (back_to_front_splice original (e :: rest) 0 ltac:(lia) Hasc).
    apply (splice_in_place original (e :: rest) 0 ltac:(lia) Hasc Hin). }
  split; [exact Heq|].
  intros service fileName Hs. unfold format. rewrite Hs, Heq. reflexivity.
Qed.

End EditFacts.

(** ** Further properties: the worker pool and the run *)

Module PoolFacts.
Import Formatter Cli Pipeline RunNotions WorkerFacts PipelineFacts.

Section Pool.
Variable P : platform.
Variable o : options.

(** One file adds at most one to each counter, to [filesChanged] only
    together with [filesChecked], and a path to the list exactly when it
    adds to [filesChanged]. *)
Lemma process_counts filePath st :
  exists checked changed : nat,
    (changed <= checked <= 1)%nat
    /\ filesChecked (process P o filePath st) = (filesChecked st + checked)%nat
    /\ filesChanged (process P o filePath st) = (filesChanged st + changed)%nat
    /\ Datatypes.length (changedFiles (process P o filePath st))
       = (Datatypes.length (changedFiles st) + changed)%nat.
Proof.
  unfold process, try_format.
  destruct (silent o), (dry o), (check o); reduce_state;
    repeat (case_match; reduce_state);
    first [ exists 0%nat, 0%nat; repeat split; lia
          | exists 1%nat, 0%nat; repeat split; lia
          | exists 1%nat, 1%nat; repeat split; rewrite ?length_app; simpl; lia ].
Qed.

Lemma process_all_counts files : forall st,
  exists checked changed : nat,
    (changed <= checked <= Datatypes.length files)%nat
    /\ filesChecked (process_all P o files st) = (filesChecked st + checked)%nat
    /\ filesChanged (process_all P o files st) = (filesChanged st + changed)%nat
    /\ Datatypes.length (changedFiles (process_all P o files st))
       = (Datatypes.length (changedFiles st) + changed)%nat.
Proof.
  induction files as [|f rest IH]; intros st.
  - exists 0%nat, 0%nat. simpl. repeat split; lia.
  - simpl. destruct (process_counts f st) as (a1 & b1 & H1 & Ha1 & Hb1 & Hl1).
    destruct (IH (process P o f st)) as (a2 & b2 & H2 & Ha2 & Hb2 & Hl2).
    exists (a1 + a2)%nat, (b1 + b2)%nat. repeat split; lia.
Qed.

(** X13: when the apply phase is over, [filesChanged] is the length of the
    list of changed paths, no more files are counted as changed than as
    checked, no more as checked than there are files, and the cursor stands
    at the number of files plus the number of workers: every worker has
    taken one index past the end. *)
Theorem counters_after_apply (files : list string) (d : gmap string file)
    (out : list output) :
  1 <= concurrency o ->
  exists st,
    apply_phase P o files d out = Some st
    /\ filesChanged st = Datatypes.length (changedFiles st)
    /\ (filesChanged st <= filesChecked st <= Datatypes.length files)%nat
    /\ index st = (Datatypes.length files + Z.to_nat (concurrency o))%nat.
Proof.
  intros Hc. eexists. split; [apply apply_phase_returns, Hc|].
  cbn. destruct (process_all_counts files (initial d out))
    as (a & b & H & Ha & Hb & Hl).
  cbn in Ha, Hb, Hl. rewrite Ha, Hb, Hl. repeat split; lia.
Qed.

(** [process] writes to the path it was given and to no other. *)
Lemma process_disk_other filePath st p :
  p <> filePath -> disk (process P o filePath st) !! p = disk st !! p.
Proof.
  intros Hne. unfold process, try_format.
  destruct (silent o), (dry o), (check o); reduce_state;
    repeat (case_match; reduce_state); try reflexivity;
    match goal with
    | H : writeFileSync _ _ _ _ = Returns _ |- _ =>
        unfold writeFileSync in H; repeat case_match; simplify_eq;
        apply lookup_insert_ne; congruence
    end.
Qed.

Lemma process_all_disk_other files p : forall st,
  p ∉ files -> disk (process_all P o files st) !! p = disk st !! p.
Proof.
  induction files as [|f rest IH]; intros st Hp; [reflexivity|].
  simpl. apply not_elem_of_cons in Hp as [Hne Hrest].
  rewrite IH by exact Hrest. apply process_disk_other, Hne.
Qed.

Lemma start_workers_disk_other files p : forall n w st st',
  p ∉ files -> start_workers P o files n w st = Some st' ->
  disk st' !! p = disk st !! p.
Proof.
  induction n as [|n IH]; intros w st st' Hp Hrun; simpl in Hrun.
  - congruence.
  - rewrite worker_returns in Hrun. rewrite (IH _ _ _ Hp Hrun). cbn.
    apply process_all_disk_other. intros Hin. apply Hp.
    eapply elem_of_sublist; [exact Hin | apply sublist_drop].
Qed.

(** [process] changes the disk only in the write mode, for a file that the
    probe accepts and that [formatFile] reports as changed. *)
Lemma process_writes filePath st :
  disk (process P o filePath st) <> disk st ->
  dry o = false /\ check o = false
  /\ isTextFile (disk st) filePath = true
  /\ exists formattedText, formatFile P (disk st) filePath = Returns (formattedText, true).
Proof.
  unfold process, try_format.
  destruct (isTextFile (disk st) filePath); [|intros H; contradiction H; reflexivity].
  destruct (formatFile P (disk st) filePath) as [[formattedText changed]|message];
    [|intros H; contradiction H; reflexivity].
  destruct changed; [|intros H; contradiction H; reflexivity].
  destruct (silent o), (dry o), (check o); reduce_state;
    try (intros H; contradiction H; reflexivity);
    intros _; repeat split; eauto.
Qed.

(** X14: the apply phase leaves every path that is not in the file list as
    it was on the disk, in every mode; and one file changes the disk only
    in the write mode, when it passes the probe and [formatFile] reports it
    as changed. *)
Theorem apply_phase_touches_listed_files_only (files : list string)
    (d : gmap string file) (out : list output) (st : state) :
  apply_phase P o files d out = Some st ->
  (forall p, p ∉ files -> disk st !! p = d !! p)
  /\ (forall filePath st0,
        disk (process P o filePath st0) <> disk st0 ->
        dry o = false /\ check o = false
        /\ isTextFile (disk st0) filePath = true
        /\ exists formattedText,
             formatFile P (disk st0) filePath = Returns (formattedText, true)).
Proof.
  intros Hrun. split; [|apply process_writes].
  intros p Hp. unfold apply_phase in Hrun.
  apply (start_workers_disk_other files p _ _ _ _ Hp Hrun).
Qed.

(** With [--silent] a file prints error lines only. *)
Lemma process_silent filePath st :
  silent o = true ->
  Forall (fun line => is_error line = true) (console st) ->
  Forall (fun line => is_error line = true) (console (process P o filePath st)).
Proof.
  intros Hs Hout. unfold process, try_format. rewrite Hs.
  destruct (dry o), (check o); reduce_state;
    repeat (case_match; reduce_state); try assumption;
    apply Forall_app; (split; [assumption|]); repeat constructor.
Qed.

Lemma process_all_silent files : forall st,
  silent o = true ->
  Forall (fun line => is_error line = true) (console st) ->
  Forall (fun line => is_error line = true) (console (process_all P o files st)).
Proof.
  induction files as [|f rest IH]; intros st Hs Hout; [exact Hout|].
  simpl. apply IH; [exact Hs|]. apply process_silent; assumption.
Qed.

Lemma start_workers_silent files : forall n w st st',
  silent o = true ->
  Forall (fun line => is_error line = true) (console st) ->
  start_workers P o files n w st = Some st' ->
  Forall (fun line => is_error line = true) (console st').
Proof.
  induction n as [|n IH]; intros w st st' Hs Hout Hrun; simpl in Hrun.
  - injection Hrun as <-. exact Hout.
  - rewrite worker_returns in Hrun. eapply IH; [exact Hs| |exact Hrun].
    cbn. apply process_all_silent; assumption.
Qed.

Lemma run_files_silent d files r :
  silent o = true ->
  run_files P o d files [] = Some r ->
  Forall (fun line => is_error line = true) (printed r).
Proof.
  intros Hs Hrun. unfold run_files in Hrun.
  destruct (apply_phase P o files d []) as [st|] eqn:Hst; [|discriminate Hrun].
  assert (Forall (fun line => is_error line = true) (console st)) as Hout.
  { unfold apply_phase in Hst.
    eapply start_workers_silent; [exact Hs| |exact Hst]. constructor. }
  rewrite Hs in Hrun.
  destruct (dry o || check o)%bool; [destruct (0 <? filesChanged st)%nat|];
    injection Hrun as <-; exact Hout.
Qed.

End Pool.

(** The pool runs the same for options that differ in the patterns only. *)
Lemma start_workers_options (P : platform) (o1 o2 : options) files : forall n w st,
  silent o1 = silent o2 -> dry o1 = dry o2 -> check o1 = check o2 ->
  start_workers P o1 files n w st = start_workers P o2 files n w st.
Proof.
  induction n as [|n IH]; intros w st Hs Hd Hc; [reflexivity|].
  simpl. rewrite !worker_returns. unfold finish.
  rewrite (process_all_options P o1 o2) by assumption.
  apply IH; assumption.
Qed.

Lemma run_files_options (P : platform) (o1 o2 : options) d files out :
  silent o1 = silent o2 -> dry o1 = dry o2 -> check o1 = check o2 ->
  concurrency o1 = concurrency o2 ->
  run_files P o1 d files out = run_files P o2 d files out.
Proof.
  intros Hs Hd Hc Hn. unfold run_files, apply_phase, pool_size.
  rewrite Hn, (start_workers_options P o1 o2) by assumption.
  rewrite Hs, Hd, Hc. reflexivity.
Qed.

End PoolFacts.

(** ** Further properties: the run as a whole *)

Module WholeRunFacts.
Import Formatter Cli Pipeline RunNotions WorkerFacts PipelineFacts PoolFacts.

Section Run.
Variable P : platform.

(** *** The branches of [run] *)

Lemma parsed_pool_positive (argv : list string) (p : parsed) :
  parseArgs P argv = Returns p -> 1 <= concurrency (parsed_options p).
Proof.
  intros Hp. unfold parseArgs in Hp.
  eapply (ParseFacts.parseArgs_loop_keeps P (fun o => 1 <= concurrency o));
    [..|exact Hp]; try (intros; assumption); try reflexivity.
  - intros o n Hn _. cbn. lia.
  - cbn. lia.
Qed.

Lemma target_given (o : options) (positional : option string) :
  (defined_truthy (dir o) || defined_truthy positional)%bool = true ->
  (negb (defined_truthy (dir o)) && negb (defined_truthy positional))%bool = false.
Proof. destruct (defined_truthy (dir o)), (defined_truthy positional); auto. Qed.

Section Branches.
Variable fs : filesystem.
Variable argv : list string.
Variable o : options.
Variable positional : option string.
Hypothesis Hparse : parseArgs P argv = Returns (mkParsed o positional false).

Lemma run_no_target :
  defined_truthy (dir o) = false -> defined_truthy positional = false ->
  run P fs argv
  = usage_error (content fs)
      (printHelp ++ [Error (newline +:+ "Error: target path is required.")]).
Proof. intros Hd Hp. unfold run. rewrite Hparse, Hd, Hp. reflexivity. Qed.

Hypothesis Htarget : (defined_truthy (dir o) || defined_truthy positional)%bool = true.

Lemma run_missing :
  inspect fs (resolve P (rawTarget o positional)) = Missing ->
  exists out,
    run P fs argv
    = usage_error (content fs)
        (out ++ [Error ("Error: path does not exist: "
                          +:+ resolve P (rawTarget o positional))]).
Proof.
  intros Hi. unfold run. rewrite Hparse, (target_given o positional Htarget).
  cbv zeta. fold (rawTarget o positional). rewrite Hi. eexists. reflexivity.
Qed.

Lemma run_rejected listing error :
  inspect fs (resolve P (rawTarget o positional)) = IsDirectory listing ->
  matcher_error P (include o) (exclude o) = Some error ->
  exists out,
    run P fs argv
    = rejected (content fs) (out ++ [Error ("Unexpected error: " +:+ error)]).
Proof.
  intros Hi Hm. unfold run. rewrite Hparse, (target_given o positional Htarget).
  cbv zeta. fold (rawTarget o positional). rewrite Hi, Hm. eexists. reflexivity.
Qed.

Lemma run_directory listing f rest :
  inspect fs (resolve P (rawTarget o positional)) = IsDirectory listing ->
  matcher_error P (include o) (exclude o) = None ->
  collectFiles P (resolve P (rawTarget o positional)) listing (include o) (exclude o)
  = f :: rest ->
  exists out, run P fs argv = run_files P o (content fs) (f :: rest) out.
Proof.
  intros Hi Hm Hfiles. unfold run. rewrite Hparse, (target_given o positional Htarget).
  cbv zeta. fold (rawTarget o positional). rewrite Hi, Hm, Hfiles.
  eexists. reflexivity.
Qed.

Lemma run_file :
  inspect fs (resolve P (rawTarget o positional)) = IsFile ->
  (negb (String.eqb (extname_lower P (resolve P (rawTarget o positional))) ".ts")
   && negb (String.eqb (extname_lower P (resolve P (rawTarget o positional))) ".tsx")
   && negb (String.eqb (extname_lower P (resolve P (rawTarget o positional))) ".js"))%bool
  = false ->
  exists out,
    run P fs argv
    = run_files P o (content fs) [resolve P (rawTarget o positional)] out.
Proof.
  intros Hi Hext. unfold run. rewrite Hparse, (target_given o positional Htarget).
  cbv zeta. fold (rawTarget o positional). rewrite Hi, Hext. eexists. reflexivity.
Qed.
End Branches.

Lemma run_parse_error fs argv message :
  parseArgs P argv = Throws message ->
  run P fs argv
  = usage_error (content fs)
      [Error ("Error: " +:+ message); Error "Use --help for usage information."].
Proof. intros Hp. unfold run. rewrite Hp. reflexivity. Qed.

(** From the file list on, a run goes through the apply phase. *)
Lemma run_files_applied o d files out :
  1 <= concurrency o ->
  exists r, run_files P o d files out = Some r /\ applied P o d files r.
Proof.
  intros Hc.
  destruct (run_files_exit P o d files out) as (r & st & Hr & Hst & Hpool & Hstored & He).
  exists r. split; [exact Hr|]. exists st, out.
  split; [exact Hst|]. split; [exact Hpool|]. split; [exact Hstored|]. split.
  - rewrite (apply_phase_returns P o files d out Hc) in Hst. injection Hst as <-.
    change (tally (process_all P o files (initial d out))
            = tally (process_all P o files (initial d []))).
    apply process_all_tally. reflexivity.
  - unfold exit_status. rewrite He.
    destruct (dry o || check o)%bool.
    + split; [discriminate|]. intros _.
      destruct (Nat.ltb_spec 0 (filesChanged st)); cbn; split; try tauto; try lia.
    + split; [reflexivity | discriminate].
Qed.

(** [run] returns, whatever the arguments and the file system. *)
Lemma run_total fs argv : exists r, run P fs argv = Some r.
Proof.
  unfold run, usage_error, rejected.
  repeat match goal with
         | |- exists r, match ?x with _ => _ end = Some r => destruct x
         | |- exists r, (if ?x then _ else _) = Some r => destruct x
         end;
    try (eexists; reflexivity);
    match goal with
    | |- exists r, run_files P ?o ?d ?files ?out = Some r =>
        destruct (run_files_exit P o d files out) as (r & _ & Hr & _);
        exists r; exact Hr
    end.
Qed.

(** A run has a pool state only when it has gone through the apply
    phase. *)
Lemma run_pool fs argv r st :
  run P fs argv = Some r -> pool r = Some st ->
  exists o positional files,
    parseArgs P argv = Returns (mkParsed o positional false)
    /\ applied P o (content fs) files r.
Proof.
  intros Hrun Hpool. unfold run, usage_error, rejected in Hrun.
  repeat match type of Hrun with
         | match ?x with _ => _ end = _ => destruct x eqn:?
         end;
    try (injection Hrun as <-; discriminate Hpool);
    match goal with
    | Hp : parseArgs P argv = Returns ?p |- _ =>
        pose proof (parsed_pool_positive argv p Hp) as Hc; cbn in Hc;
        match type of Hrun with
        | run_files P ?o ?d ?files ?out = Some r =>
            destruct (run_files_applied o d files out Hc) as (r' & Hr' & Happlied);
            rewrite Hrun in Hr'; injection Hr' as <-;
            eexists _, _, files; split; [reflexivity | exact Happlied]
        end
    end.
Qed.

(** *** The exit status *)

(** C5: a run always returns. When the target is a directory in which
    [collectFiles] finds files, or a file with a supported extension, the
    run goes through the apply phase over these files: its counters, list
    and disk are those of the files processed one after the other, the
    exit status is 0 in the write mode, and in the dry-run or check mode it
    is non-zero exactly when [filesChanged] is above zero (it is then 1);
    a run has a pool state in no other case. An error of [parseArgs] (an
    unknown flag, a concurrency that is not a positive integer), a missing
    target path and a target path that does not exist end the run with exit
    status 2, before any traversal or formatting: there is no pool state
    and the disk is the initial one. Status 2 is given in no run that
    reaches the apply phase; status 1 is also that of a run in which a
    [new Minimatch] of [collectFiles] throws, in every mode and before the
    walk. *)
Theorem exit_status_of_run (fs : filesystem) (argv : list string) :
  exists r,
    run P fs argv = Some r
    /\ (forall o positional listing,
          parseArgs P argv = Returns (mkParsed o positional false) ->
          (defined_truthy (dir o) || defined_truthy positional)%bool = true ->
          inspect fs (resolve P (rawTarget o positional)) = IsDirectory listing ->
          matcher_error P (include o) (exclude o) = None ->
          collectFiles P (resolve P (rawTarget o positional)) listing
            (include o) (exclude o) <> [] ->
          applied P o (content fs)
            (collectFiles P (resolve P (rawTarget o positional)) listing
               (include o) (exclude o)) r)
    /\ (forall o positional,
          parseArgs P argv = Returns (mkParsed o positional false) ->
          (defined_truthy (dir o) || defined_truthy positional)%bool = true ->
          inspect fs (resolve P (rawTarget o positional)) = IsFile ->
          extname_lower P (resolve P (rawTarget o positional)) ∈ [".ts"; ".tsx"; ".js"] ->
          applied P o (content fs) [resolve P (rawTarget o positional)] r)
    /\ (forall st, pool r = Some st ->
          exists o positional files,
            parseArgs P argv = Returns (mkParsed o positional false)
            /\ applied P o (content fs) files r)
    /\ (forall message, parseArgs P argv = Throws message ->
          exit_status r = 2 /\ pool r = None /\ stored r = content fs
          /\ printed r = [ Error ("Error: " +:+ message);
                           Error "Use --help for usage information." ])
    /\ (forall o positional,
          parseArgs P argv = Returns (mkParsed o positional false) ->
          defined_truthy (dir o) = false -> defined_truthy positional = false ->
          exit_status r = 2 /\ pool r = None /\ stored r = content fs)
    /\ (forall o positional,
          parseArgs P argv = Returns (mkParsed o positional false) ->
          (defined_truthy (dir o) || defined_truthy positional)%bool = true ->
          inspect fs (resolve P (rawTarget o positional)) = Missing ->
          exit_status r = 2 /\ pool r = None /\ stored r = content fs)
    /\ (forall o positional listing error,
          parseArgs P argv = Returns (mkParsed o positional false) ->
          (defined_truthy (dir o) || defined_truthy positional)%bool = true ->
          inspect fs (resolve P (rawTarget o positional)) = IsDirectory listing ->
          matcher_error P (include o) (exclude o) = Some error ->
          exit_status r = 1 /\ pool r = None /\ stored r = content fs)
    /\ (forall args o positional arg,
          startsWith_dash arg = true -> arg ∉ known_flags ->
          parseArgs_loop P (arg :: args) o positional
          = Throws ("Unknown option: " +:+ arg))
    /\ (forall args o positional next,
          truthy next = true -> positive_integer P next = false ->
          parseArgs_loop P ("--concurrency" :: next :: args) o positional
          = Throws "--concurrency must be a positive integer").
Proof.
  destruct (run_total fs argv) as (r & Hrun). exists r.
  split; [exact Hrun|]. split.
  { intros o positional listing Hparse Htarget Hi Hm Hfiles.
    destruct (collectFiles P (resolve P (rawTarget o positional)) listing
                (include o) (exclude o)) as [|f rest] eqn:Hc;
      [contradiction Hfiles; reflexivity|].
    destruct (run_directory fs argv o positional Hparse Htarget listing f rest Hi Hm Hc)
      as (out & Heq).
    destruct (run_files_applied o (content fs) (f :: rest) out
                (parsed_pool_positive argv _ Hparse)) as (r' & Hr' & Happlied).
    rewrite Heq, Hr' in Hrun. injection Hrun as <-. exact Happlied. }
  split.
  { intros o positional Hparse Htarget Hi Hext.
    assert ((negb (String.eqb (extname_lower P (resolve P (rawTarget o positional))) ".ts")
             && negb (String.eqb (extname_lower P (resolve P (rawTarget o positional))) ".tsx")
             && negb (String.eqb (extname_lower P (resolve P (rawTarget o positional))) ".js"))%bool
            = false) as Hsupported.
    { repeat (apply elem_of_cons in Hext as [->|Hext];
              [rewrite String.eqb_refl, ?andb_false_r; reflexivity|]).
      inversion Hext. }
    destruct (run_file fs argv o positional Hparse Htarget Hi Hsupported) as (out & Heq).
    destruct (run_files_applied o (content fs) [resolve P (rawTarget o positional)] out
                (parsed_pool_positive argv _ Hparse)) as (r' & Hr' & Happlied).
    rewrite Heq, Hr' in Hrun. injection Hrun as <-. exact Happlied. }
  split; [intros st; apply (run_pool fs argv r st Hrun)|].
  split.
  { intros message Hparse. rewrite (run_parse_error fs argv message Hparse) in Hrun.
    injection Hrun as <-. repeat split. }
  split.
  { intros o positional Hparse Hd Hp.
    rewrite (run_no_target fs argv o positional Hparse Hd Hp) in Hrun.
    injection Hrun as <-. repeat split. }
  split.
  { intros o positional Hparse Htarget Hi.
    destruct (run_missing fs argv o positional Hparse Htarget Hi) as (out & Heq).
    rewrite Heq in Hrun. injection Hrun as <-. repeat split. }
  split.
  { intros o positional listing error Hparse Htarget Hi Hm.
    destruct (run_rejected fs argv o positional Hparse Htarget listing error Hi Hm)
      as (out & Heq).
    rewrite Heq in Hrun. injection Hrun as <-. repeat split. }
  split; [apply RunFacts.unknown_option_throws | apply RunFacts.bad_concurrency_throws].
Qed.

(** *** What a run leaves on the disk *)



(** *** [--silent] *)

Lemma filter_mode_lines o : List.filter is_error (mode_lines o) = [].
Proof. unfold mode_lines. destruct (dry o), (check o); reflexivity. Qed.

Lemma filter_would_change (paths : list string) :
  List.filter is_error (map (fun f => Log ("  " +:+ f)) paths) = [].
Proof. induction paths as [|f rest IH]; [reflexivity|exact IH]. Qed.

Lemma filter_is_error_all (lines : list output) :
  Forall (fun line => is_error line = true) (List.filter is_error lines).
Proof.
  induction lines as [|l rest IH]; simpl; [constructor|].
  destruct (is_error l) eqn:Hl; [constructor; assumption | exact IH].
Qed.

Ltac errors_only :=
  repeat (rewrite ?List.filter_app, ?filter_mode_lines;
          cbn [List.filter is_error app]);
  reflexivity.

(** With and without [--silent] a file is treated alike, and with it the
    console gets the error lines that it gets without. *)
Lemma process_quiet o filePath st1 st2 :
  silent o = false ->
  tally st1 = tally st2 ->
  console st2 = List.filter is_error (console st1) ->
  tally (process P o filePath st1) = tally (process P (set_silent o) filePath st2)
  /\ console (process P (set_silent o) filePath st2)
     = List.filter is_error (console (process P o filePath st1)).
Proof.
  intros Hs Ht Hc. destruct st1, st2. unfold tally in Ht. cbn in Ht, Hc.
  injection Ht as -> -> -> ->. subst.
  unfold process, try_format. cbn [silent dry check set_silent]. rewrite Hs.
  destruct (dry o), (check o); reduce_state;
    repeat (case_match; reduce_state); simplify_eq;
    (split; [reflexivity|]);
    rewrite ?List.filter_app; cbn; rewrite ?app_nil_r; reflexivity.
Qed.

Lemma process_all_quiet o files : forall st1 st2,
  silent o = false ->
  tally st1 = tally st2 ->
  console st2 = List.filter is_error (console st1) ->
  tally (process_all P o files st1) = tally (process_all P (set_silent o) files st2)
  /\ console (process_all P (set_silent o) files st2)
     = List.filter is_error (console (process_all P o files st1)).
Proof.
  induction files as [|f rest IH]; intros st1 st2 Hs Ht Hc; [split; assumption|].
  simpl. destruct (process_quiet o f st1 st2 Hs Ht Hc) as (Ht' & Hc').
  apply IH; assumption.
Qed.

Lemma start_workers_quiet o files : forall n w st1 st2 st1' st2',
  silent o = false ->
  index st1 = index st2 ->
  tally st1 = tally st2 ->
  console st2 = List.filter is_error (console st1) ->
  start_workers P o files n w st1 = Some st1' ->
  start_workers P (set_silent o) files n w st2 = Some st2' ->
  tally st1' = tally st2'
  /\ console st2' = List.filter is_error (console st1').
Proof.
  induction n as [|n IH]; intros w st1 st2 st1' st2' Hs Hi Ht Hc H1 H2;
    simpl in H1, H2.
  - injection H1 as <-. injection H2 as <-. split; assumption.
  - rewrite worker_returns in H1, H2. rewrite <- Hi in H2.
    destruct (process_all_quiet o (drop (index st1) files) st1 st2 Hs Ht Hc)
      as (Ht' & Hc').
    eapply (IH _ _ _ _ _ Hs); [| | |exact H1|exact H2].
    + reflexivity.
    + exact Ht'.
    + exact Hc'.
Qed.

Lemma run_files_quiet o d files out1 out2 r1 r2 :
  silent o = false ->
  out2 = List.filter is_error out1 ->
  run_files P o d files out1 = Some r1 ->
  run_files P (set_silent o) d files out2 = Some r2 ->
  printed r2 = List.filter is_error (printed r1)
  /\ exitCode r2 = exitCode r1 /\ stored r2 = stored r1.
Proof.
  intros Hs Hout H1 H2. unfold run_files in H1, H2.
  destruct (apply_phase P o files d out1) as [st1|] eqn:Hst1; [|discriminate H1].
  destruct (apply_phase P (set_silent o) files d out2) as [st2|] eqn:Hst2;
    [|discriminate H2].
  unfold apply_phase in Hst1, Hst2.
  change (pool_size P (set_silent o)) with (pool_size P o) in Hst2.
  destruct (start_workers_quiet o files _ _ (initial d out1) (initial d out2) st1 st2
              Hs eq_refl eq_refl Hout Hst1 Hst2)
    as (Ht & Hc).
  assert (filesChanged st2 = filesChanged st1 /\ disk st2 = disk st1) as (Hn & Hd)
    by (unfold tally in Ht; injection Ht; intros; split; congruence).
  cbn [silent dry check set_silent] in H2. rewrite Hs in H1. rewrite Hn in H2.
  destruct (dry o || check o)%bool; [destruct (0 <? filesChanged st1)%nat|];
    injection H1 as <-; injection H2 as <-; cbn [printed exitCode stored];
    (split; [|split; [reflexivity|exact Hd]]);
    rewrite ?List.filter_app; cbn [List.filter is_error app];
    rewrite ?filter_would_change, ?app_nil_r; exact Hc.
Qed.

(** X16: [--silent] takes away everything but the errors, and the errors it
    leaves: what a run with a target prints with [--silent] is, line for
    line and in the same order, what [console.error] prints in the same run
    without it. The warning, the progress lines, the summary and the list
    of changed files are left out; the usage errors, the errors of the
    files and an unexpected error are printed as before. The exit code and
    the disk are the same. *)
Theorem silent_run_prints_the_errors (fs : filesystem)
    (argv_loud argv_silent : list string) (o : options) (positional : option string)
    (r_loud r_silent : result) :
  parseArgs P argv_loud = Returns (mkParsed o positional false) ->
  parseArgs P argv_silent = Returns (mkParsed (set_silent o) positional false) ->
  silent o = false ->
  (defined_truthy (dir o) || defined_truthy positional)%bool = true ->
  run P fs argv_loud = Some r_loud ->
  run P fs argv_silent = Some r_silent ->
  printed r_silent = List.filter is_error (printed r_loud)
  /\ Forall (fun line => is_error line = true) (printed r_silent)
  /\ exitCode r_silent = exitCode r_loud
  /\ stored r_silent = stored r_loud.
Proof.
  intros Hp1 Hp2 Hs Htarget H1 H2.
  assert (printed r_silent = List.filter is_error (printed r_loud)
          /\ exitCode r_silent = exitCode r_loud /\ stored r_silent = stored r_loud)
    as (Hprinted & Hcode & Hstored);
    [|split; [exact Hprinted|]; split; [|split; assumption];
      rewrite Hprinted; apply filter_is_error_all].
  unfold run, usage_error, rejected in H1, H2. rewrite Hp1 in H1. rewrite Hp2 in H2.
  cbv zeta in H1, H2.
  cbn [dir include exclude concurrency dry check silent set_silent] in H2.
  rewrite Hs in H1.
  rewrite (target_given o positional Htarget) in H1, H2.
  fold (rawTarget o positional) in H1, H2.
  destruct (defined_truthy (dir o) && defined_truthy positional)%bool;
    cbn [negb andb app] in H1, H2;
    (destruct (inspect fs (resolve P (rawTarget o positional))) as [| |listing| |];
     [ | | destruct (matcher_error P (include o) (exclude o));
           [|destruct (collectFiles P (resolve P (rawTarget o positional)) listing
                        (include o) (exclude o)) as [|f rest] eqn:Hfiles]
       | destruct (negb (String.eqb (extname_lower P (resolve P (rawTarget o positional))) ".ts")
                   && negb (String.eqb (extname_lower P (resolve P (rawTarget o positional))) ".tsx")
                   && negb (String.eqb (extname_lower P (resolve P (rawTarget o positional))) ".js"))%bool
       | ]);
    first
      [ eapply run_files_quiet; [exact Hs| |exact H1|exact H2]; errors_only
      | injection H1 as <-; injection H2 as <-; cbn [printed exitCode stored];
        repeat split; errors_only ].
Qed.

(** X17: when the target is a file, the include and exclude patterns are
    not looked at: two command lines that differ in these two options only
    give the same run. *)
Theorem single_file_ignores_patterns (fs : filesystem) (argv1 argv2 : list string)
    (o : options) (positional : option string)
    (includePattern : string) (excludePatterns : list string) :
  parseArgs P argv1 = Returns (mkParsed o positional false) ->
  parseArgs P argv2
  = Returns (mkParsed (set_exclude excludePatterns (set_include includePattern o))
               positional false) ->
  inspect fs (resolve P (rawTarget o positional)) = IsFile ->
  run P fs argv1 = run P fs argv2.
Proof.
  intros H1 H2 Hfile. unfold run. rewrite H1, H2.
  cbn [dir include exclude concurrency dry check silent set_exclude set_include].
  fold (rawTarget o positional). rewrite Hfile.
  destruct (negb (defined_truthy (dir o)) && negb (defined_truthy positional))%bool;
    [reflexivity|].
  destruct (negb (String.eqb (extname_lower P (resolve P (rawTarget o positional))) ".ts")
            && negb (String.eqb (extname_lower P (resolve P (rawTarget o positional))) ".tsx")
            && negb (String.eqb (extname_lower P (resolve P (rawTarget o positional))) ".js"))%bool;
    [reflexivity|].
  apply run_files_options; reflexivity.
Qed.
End Run.

End WholeRunFacts.

(** ** Further properties: the targets of the build script *)

Module BuildFacts.
Import Cli BuildBun.




End BuildFacts.

(** ** The further properties at concrete inputs *)

Module MoreRuns.
Import Formatter Cli Pipeline Sample MoreSample EditNotions WalkNotions RunNotions StringNotions.
Import PipelineFacts ParseFacts ProbeFacts TraversalFacts EditFacts PoolFacts
  WholeRunFacts.

Lemma parsed_concurrency_positive_witness :
  parseArgs node ["node"; "format-ts"; "/r"; "--concurrency"; "3"]
  = Returns (mkParsed (set_concurrency 3 default_options) (Some "/r") false)
  /\ pool_size node (set_concurrency 3 default_options) = 3.
Proof.
  assert (parseArgs node ["node"; "format-ts"; "/r"; "--concurrency"; "3"]
          = Returns (mkParsed (set_concurrency 3 default_options) (Some "/r") false))
    as Hparse by (vm_compute; reflexivity).
  split; [exact Hparse|].
  apply (parsed_concurrency_positive node _ _ Hparse).
Defined.

Lemma parsed_options_well_formed_witness :
  parseArgs node ["node"; "format-ts"; "--exclude"; " dist , ,out"; "/r"]
  = Returns (mkParsed (set_exclude ["dist"; "out"] default_options) (Some "/r") false)
  /\ Forall clean ["dist"; "out"].
Proof.
  assert (parseArgs node ["node"; "format-ts"; "--exclude"; " dist , ,out"; "/r"]
          = Returns (mkParsed (set_exclude ["dist"; "out"] default_options)
                       (Some "/r") false))
    as Hparse by (vm_compute; reflexivity).
  split; [exact Hparse|].
  apply (parsed_options_well_formed node _ _ Hparse).
Defined.

Lemma isTextFile_spec_witness :
  isTextFile files_of_r "/r/a.ts" = true
  /\ exists f, files_of_r !! "/r/a.ts" = Some f /\ probe_fails f = false.
Proof.
  assert (isTextFile files_of_r "/r/a.ts" = true) as Htext by (vm_compute; reflexivity).
  split; [exact Htext|].
  destruct (proj1 (isTextFile_spec files_of_r "/r/a.ts") Htext) as (f & Hf & Hp & _).
  exists f. split; assumption.
Defined.

Lemma collectFiles_spec_witness :
  (minimatch node false "**/*.{ts,tsx,js}" (relative [] "a.ts")
   || minimatch node false "**/*.{ts,tsx,js}" "a.ts")%bool = true
  /\ join "/r" "a.ts" ∈ collectFiles node "/r" (Some [File "a.ts"; Other "sock"])
                          "**/*.{ts,tsx,js}" ["dist"].
Proof.
  assert ((minimatch node false "**/*.{ts,tsx,js}" (relative [] "a.ts")
           || minimatch node false "**/*.{ts,tsx,js}" "a.ts")%bool = true) as Hinc
    by (vm_compute; reflexivity).
  split; [exact Hinc|].
  apply (collectFiles_spec node "/r" "**/*.{ts,tsx,js}" ["dist"]).
  exists (relative [] "a.ts"), "a.ts". split; [|exact Hinc].
  apply reachable_here. left.
Defined.

Lemma pruned_directory_adds_nothing_witness :
  excluded
    (map (fun pattern => minimatch node true (replace_backslashes pattern))
       (exclude default_options))
    (relative [] "node_modules") "node_modules" = true
  /\ collectFiles node "/r"
       (Some ([File "a.ts"; File "b.ts"]
                ++ Directory "node_modules" (Some [File "c.ts"]) :: []))
       (include default_options) (exclude default_options)
     = collectFiles node "/r" (Some ([File "a.ts"; File "b.ts"] ++ []))
         (include default_options) (exclude default_options).
Proof.
  assert (excluded
            (map (fun pattern => minimatch node true (replace_backslashes pattern))
               (exclude default_options))
            (relative [] "node_modules") "node_modules" = true) as Hex
    by (vm_compute; reflexivity).
  split; [exact Hex|].
  apply (pruned_directory_adds_nothing node "/r" (include default_options)
           (exclude default_options) [File "a.ts"; File "b.ts"] [] "node_modules"
           (Some [File "c.ts"]) (or_introl Hex)).
Defined.

Lemma apply_length_witness :
  ascending_from (str "abcd") 0 [e_lo; e_hi]
  /\ Z.of_nat (Datatypes.length (apply_back_to_front [e_lo; e_hi] (str "abcd")))
     = Z.of_nat (Datatypes.length (str "abcd")) + net_growth [e_lo; e_hi].
Proof.
  assert (ascending_from (str "abcd") 0 [e_lo; e_hi]) as H
    by (vm_compute; repeat split; discriminate).
  split; [exact H|]. apply (apply_length (str "abcd") [e_lo; e_hi] H).
Defined.

Lemma apply_keeps_prefix_witness :
  0 <= 2 /\ ascending_from (str "abcd") 2 [e_hi]
  /\ take (Z.to_nat 2) (apply_back_to_front [e_hi] (str "abcd"))
     = take (Z.to_nat 2) (str "abcd").
Proof.
  assert (0 <= 2) as H0 by lia.
  assert (ascending_from (str "abcd") 2 [e_hi]) as H
    by (vm_compute; repeat split; discriminate).
  split; [exact H0|]. split; [exact H|].
  apply (apply_keeps_prefix (str "abcd") [e_hi] 2 H0 H).
Defined.

Lemma apply_keeps_suffix_witness :
  ascending_from (str "abcd") 0 [e_lo; e_hi]
  /\ apply_back_to_front [e_lo; e_hi] (str "abcd" ++ str "ef")
     = apply_back_to_front [e_lo; e_hi] (str "abcd") ++ str "ef".
Proof.
  assert (ascending_from (str "abcd") 0 [e_lo; e_hi]) as H
    by (vm_compute; repeat split; discriminate).
  split; [exact H|]. apply (apply_keeps_suffix (str "abcd") (str "ef") [e_lo; e_hi] H).
Defined.

Lemma in_place_edits_change_nothing_witness :
  ascending_from (str "abcd") 0 [mkChange (mkSpan 1 2) (str "bc")]
  /\ Forall (in_place (str "abcd")) [mkChange (mkSpan 1 2) (str "bc")]
  /\ apply_edits (Some [mkChange (mkSpan 1 2) (str "bc")]) (str "abcd") = str "abcd".
Proof.
  assert (ascending_from (str "abcd") 0 [mkChange (mkSpan 1 2) (str "bc")]) as H
    by (vm_compute; repeat split; discriminate).
  assert (Forall (in_place (str "abcd")) [mkChange (mkSpan 1 2) (str "bc")]) as Hin
    by (repeat constructor).
  split; [exact H|]. split; [exact Hin|].
  apply (in_place_edits_change_nothing (str "abcd") _ H Hin).
Defined.

Lemma counters_after_apply_witness :
  1 <= concurrency default_options
  /\ exists st,
       apply_phase node default_options ["/r/a.ts"; "/r/b.ts"] files_of_r [] = Some st
       /\ filesChanged st = Datatypes.length (changedFiles st).
Proof.
  assert (1 <= concurrency default_options) as Hc by (cbn; lia).
  split; [exact Hc|].
  destruct (counters_after_apply node default_options ["/r/a.ts"; "/r/b.ts"]
              files_of_r [] Hc) as (st & Hrun & Hlen & _).
  exists st. split; assumption.
Defined.

Lemma apply_phase_touches_listed_files_only_witness :
  ("/r/node_modules/c.ts" ∉ ["/r/a.ts"; "/r/b.ts"])
  /\ exists st,
       apply_phase node default_options ["/r/a.ts"; "/r/b.ts"] files_of_r [] = Some st
       /\ disk st !! "/r/node_modules/c.ts" = files_of_r !! "/r/node_modules/c.ts".
Proof.
  assert ("/r/node_modules/c.ts" ∉ ["/r/a.ts"; "/r/b.ts"]) as Hout.
  { intros H. repeat (apply elem_of_cons in H as [H|H]; [discriminate H|]).
    inversion H. }
  split; [exact Hout|].
  destruct (apply_phase_total node default_options ["/r/a.ts"; "/r/b.ts"] files_of_r [])
    as (st & Hrun).
  exists st. split; [exact Hrun|].
  apply (apply_phase_touches_listed_files_only node default_options _ _ _ _ Hrun).
  exact Hout.
Defined.


Lemma exit_status_of_run_witness :
  (exists r,
     run node fs_r ["node"; "format-ts"; "/r"; "--check"] = Some r
     /\ applied node (set_check default_options) (content fs_r) ["/r/a.ts"; "/r/b.ts"] r
     /\ exit_status r = 1)
  /\ (exists r,
        run node fs_r ["node"; "format-ts"; "/r"] = Some r
        /\ applied node default_options (content fs_r) ["/r/a.ts"; "/r/b.ts"] r
        /\ exit_status r = 0 /\ stored r <> content fs_r)
  /\ (exists r,
        run node fs_r ["node"; "format-ts"; "/nowhere"] = Some r
        /\ exit_status r = 2 /\ pool r = None /\ stored r = content fs_r).
Proof.
  split; [|split].
  - destruct (exit_status_of_run node fs_r ["node"; "format-ts"; "/r"; "--check"])
      as (r & Hrun & Hdir & _).
    exists r. split; [exact Hrun|]. split.
    + apply (Hdir (set_check default_options) (Some "/r") tree);
        [vm_compute; reflexivity | reflexivity | vm_compute; reflexivity
        | vm_compute; reflexivity | vm_compute; discriminate].
    + vm_compute in Hrun. injection Hrun as <-. reflexivity.
  - destruct (exit_status_of_run node fs_r ["node"; "format-ts"; "/r"])
      as (r & Hrun & Hdir & _).
    exists r. split; [exact Hrun|]. split.
    + apply (Hdir default_options (Some "/r") tree);
        [vm_compute; reflexivity | reflexivity | vm_compute; reflexivity
        | vm_compute; reflexivity | vm_compute; discriminate].
    + vm_compute in Hrun. injection Hrun as <-.
      split; [reflexivity|]. intros Hsame.
      apply (f_equal (fun d => bytes <$> d !! "/r/a.ts")) in Hsame.
      vm_compute in Hsame. discriminate Hsame.
  - destruct (exit_status_of_run node fs_r ["node"; "format-ts"; "/nowhere"])
      as (r & Hrun & _ & _ & _ & _ & _ & Hmissing & _).
    exists r. split; [exact Hrun|].
    apply (Hmissing default_options (Some "/nowhere"));
      [vm_compute; reflexivity | reflexivity | vm_compute; reflexivity].
Defined.





Lemma silent_run_prints_the_errors_witness :
  exists r_loud r_silent,
    run node fs_boom ["node"; "format-ts"; "/r"] = Some r_loud
    /\ run node fs_boom ["node"; "format-ts"; "/r"; "--silent"] = Some r_silent
    /\ printed r_silent = [Error "Error formatting /r/bad.ts: Debug Failure."]
    /\ printed r_silent = List.filter is_error (printed r_loud)
    /\ exitCode r_silent = exitCode r_loud
    /\ stored r_silent = stored r_loud.
Proof.
  destruct (run node fs_boom ["node"; "format-ts"; "/r"]) as [r_loud|] eqn:Hloud;
    [|vm_compute in Hloud; discriminate Hloud].
  destruct (run node fs_boom ["node"; "format-ts"; "/r"; "--silent"])
    as [r_silent|] eqn:Hsilent;
    [|vm_compute in Hsilent; discriminate Hsilent].
  exists r_loud, r_silent. split; [reflexivity|]. split; [reflexivity|]. split.
  - pose proof Hsilent as Hvalue. vm_compute in Hvalue. injection Hvalue as <-.
    reflexivity.
  - destruct (silent_run_prints_the_errors node fs_boom
                ["node"; "format-ts"; "/r"] ["node"; "format-ts"; "/r"; "--silent"]
                default_options (Some "/r") r_loud r_silent)
      as (Hprinted & _ & Hcode & Hstored);
      [vm_compute; reflexivity | vm_compute; reflexivity | reflexivity | reflexivity
      | exact Hloud | exact Hsilent |].
    repeat split; assumption.
Defined.

Lemma single_file_ignores_patterns_witness :
  inspect fs_file (resolve node (rawTarget default_options (Some "/r/a.ts"))) = IsFile
  /\ run node fs_file ["node"; "format-ts"; "/r/a.ts"]
     = run node fs_file ["node"; "format-ts"; "/r/a.ts"; "--include"; "*.md";
                         "--exclude"; "a.ts"].
Proof.
  assert (inspect fs_file (resolve node (rawTarget default_options (Some "/r/a.ts")))
          = IsFile)
    as Hfile by (vm_compute; reflexivity).
  split; [exact Hfile|].
  apply (single_file_ignores_patterns node fs_file _ _ default_options (Some "/r/a.ts")
           "*.md" ["a.ts"]); [vm_compute; reflexivity | vm_compute; reflexivity | exact Hfile].
Defined.

End MoreRuns.
